(** * ClawWeb: a single-host breadth-first web crawler

    Shallow embedding of [src/clawweb/main.py] (classes [Link], [Crawler],
    [Fetcher] and the functions [getLinks] and [main]) together with the
    parts of the Python library the crawler calls: [urlparse], [urljoin],
    [urldefrag] and the [hostname] property of [urllib.parse] (as in
    CPython 3.11) and [html.escape].

    Python [str] values are modelled as [string] (sequences of code points
    below 256), Python sets as [gset], the FIFO queue as a list whose head
    is the next item to leave, unbounded integers as [Z] or [nat]. An
    exception is a result [Raise e]; what is written to standard error is
    not modelled. The network and the HTML parser are a parameter of the
    development (class [World]). *)

From Stdlib Require Import ZArith Lia Ascii String List Bool DecimalString Sorted.
From stdpp Require Import gmap strings list sorting.

Local Open Scope Z_scope.

(** ** Python string operations *)

Module Str.

Definition code (c : ascii) : nat := nat_of_ascii c.

(** [c in s] for a one-character [c]. *)
Fixpoint contains (c : ascii) (s : string) : bool :=
  match s with
  | EmptyString => false
  | String a s' => Ascii.eqb a c || contains c s'
  end.

(** [s.partition(c)]: [Some (before, after)] around the first [c],
    [None] when [c] does not occur (Python then returns [(s, '', '')]). *)
Fixpoint partition (c : ascii) (s : string) : option (string * string) :=
  match s with
  | EmptyString => None
  | String a s' =>
      if Ascii.eqb a c then Some (EmptyString, s')
      else match partition c s' with
           | Some (b, r) => Some (String a b, r)
           | None => None
           end
  end.

(** [s.rpartition(c)]: around the last [c]. *)
Fixpoint rpartition (c : ascii) (s : string) : option (string * string) :=
  match s with
  | EmptyString => None
  | String a s' =>
      match rpartition c s' with
      | Some (b, r) => Some (String a b, r)
      | None => if Ascii.eqb a c then Some (EmptyString, s') else None
      end
  end.

(** [s.split(c)]: never the empty list. *)
Fixpoint split (c : ascii) (s : string) : list string :=
  match s with
  | EmptyString => [EmptyString]
  | String a s' =>
      if Ascii.eqb a c then EmptyString :: split c s'
      else match split c s' with
           | h :: t => String a h :: t
           | [] => [String a EmptyString]
           end
  end.

(** [sep.join(l)]. *)
Fixpoint join (sep : string) (l : list string) : string :=
  match l with
  | [] => EmptyString
  | [x] => x
  | x :: t => x +:+ sep +:+ join sep t
  end.

(** [s.replace(c, rep)] for a one-character [c]. *)
Fixpoint replace (c : ascii) (rep : string) (s : string) : string :=
  match s with
  | EmptyString => EmptyString
  | String a s' =>
      if Ascii.eqb a c then rep +:+ replace c rep s'
      else String a (replace c rep s')
  end.

(** [s.lstrip(chars)], the character set given as a predicate. *)
Fixpoint lstrip (p : ascii -> bool) (s : string) : string :=
  match s with
  | EmptyString => EmptyString
  | String a s' => if p a then lstrip p s' else s
  end.

Fixpoint rstrip (p : ascii -> bool) (s : string) : string :=
  match s with
  | EmptyString => EmptyString
  | String a s' =>
      match rstrip p s' with
      | EmptyString => if p a then EmptyString else String a EmptyString
      | r => String a r
      end
  end.

Definition strip (p : ascii -> bool) (s : string) : string :=
  lstrip p (rstrip p s).

(** The longest prefix without a character satisfying [p], and the rest. *)
Fixpoint span (p : ascii -> bool) (s : string) : string * string :=
  match s with
  | EmptyString => (EmptyString, EmptyString)
  | String a s' =>
      if p a then (EmptyString, s)
      else let '(b, r) := span p s' in (String a b, r)
  end.

Fixpoint forallb (p : ascii -> bool) (s : string) : bool :=
  match s with
  | EmptyString => true
  | String a s' => p a && forallb p s'
  end.

Definition is_upper (c : ascii) : bool :=
  (65 <=? code c)%nat && (code c <=? 90)%nat.
Definition is_lower (c : ascii) : bool :=
  (97 <=? code c)%nat && (code c <=? 122)%nat.
Definition is_digit (c : ascii) : bool :=
  (48 <=? code c)%nat && (code c <=? 57)%nat.
Definition is_ascii (c : ascii) : bool := (code c <? 128)%nat.

(** [str.lower] on code points below 256: the ASCII capitals and the
    Latin-1 capitals U+00C0..U+00DE except the multiplication sign. *)
Definition lower_char (c : ascii) : ascii :=
  if is_upper c
     || ((192 <=? code c)%nat && (code c <=? 222)%nat
         && negb (code c =? 215)%nat)
  then ascii_of_nat (code c + 32)
  else c.

Fixpoint lower (s : string) : string :=
  match s with
  | EmptyString => EmptyString
  | String a s' => String (lower_char a) (lower s')
  end.

(** [s.startswith(p)]. *)
Definition startswith (p s : string) : bool := String.prefix p s.

(** [sub in s]. *)
Fixpoint has_substring (sub s : string) : bool :=
  String.prefix sub s ||
  match s with
  | EmptyString => false
  | String _ s' => has_substring sub s'
  end.

Definition is_empty (s : string) : bool :=
  match s with EmptyString => true | _ => false end.

(** [s[:2]]. *)
Definition take2 (s : string) : string :=
  match s with
  | String a (String b _) => String a (String b EmptyString)
  | _ => s
  end.

(** [s[2:]]. *)
Definition drop2 (s : string) : string :=
  match s with
  | String _ (String _ r) => r
  | _ => EmptyString
  end.

(** [str(n)] for a non-negative integer. *)
Definition of_nat (n : nat) : string :=
  NilEmpty.string_of_uint (Nat.to_uint n).

End Str.

(** ** Exceptions *)

(** The exception classes the code tells apart: [fetch] catches
    [HTTPError] and [URLError], [crawl] and [_same_host] catch all of
    them. *)
Inductive exn : Type :=
| ValueError
| NameError
| HTTPError
| URLError
| OtherException.

Inductive result (A : Type) : Type :=
| Ok (a : A)
| Raise (e : exn).
Arguments Ok {A} a.
Arguments Raise {A} e.

(** Sequencing: an exception of the first computation leaves the second
    one out. *)
Definition bind {A B : Type} (m : result A) (k : A -> result B) : result B :=
  match m with
  | Ok a => k a
  | Raise e => Raise e
  end.

Notation "'do' x <- m ; k" := (bind m (fun x => k))
  (at level 10, x pattern, m at level 100, k at level 200).

(** A list comprehension [[f(x) for x in l]] whose [f] can raise. *)
Fixpoint mapM {A B : Type} (f : A -> result B) (l : list A) : result (list B) :=
  match l with
  | [] => Ok []
  | x :: t => do y <- f x; do ys <- mapM f t; Ok (y :: ys)
  end.

(** ** The environment

    What the crawler cannot decide by itself: the answer of the network to a
    request, and the two address checks of [urllib.parse] that rest on the
    [ipaddress], [re] and [unicodedata] modules. *)

(** Outcome of [Fetcher._open] followed by [handle.open(request)], reading
    the content type, reading and decoding the body and collecting
    [tag.get("href")] for every [a] element in document order. *)
Inductive open_outcome : Type :=
| NoHandle                      (* [_open] caught [IOError]: no handle *)
| OpenRaises (e : exn)          (* one of these calls raised [e] *)
| Response (mime_type : string) (hrefs : list (option string)).

Class World : Type := {
  (** [_check_bracketed_host] returns without raising. *)
  check_bracketed_host : string -> bool;
  (** The NFKC test of [_checknetloc] on a netloc with a non-ASCII
      character returns without raising. *)
  checknetloc_nfkc : string -> bool;
  urlopen : string -> open_outcome
}.

(** ** [urllib.parse] and [html.escape] *)

Definition uses_relative : list string :=
  [""; "ftp"; "http"; "gopher"; "nntp"; "imap"; "wais"; "file"; "https";
   "shttp"; "mms"; "prospero"; "rtsp"; "rtspu"; "sftp"; "svn"; "svn+ssh";
   "ws"; "wss"].

Definition uses_netloc : list string :=
  [""; "ftp"; "http"; "gopher"; "nntp"; "telnet"; "imap"; "wais"; "file";
   "mms"; "https"; "shttp"; "snews"; "prospero"; "rtsp"; "rtspu"; "rsync";
   "svn"; "svn+ssh"; "sftp"; "nfs"; "git"; "git+ssh"; "ws"; "wss"].

Definition uses_params : list string :=
  [""; "ftp"; "hdl"; "prospero"; "http"; "imap"; "https"; "shttp"; "rtsp";
   "rtspu"; "sip"; "sips"; "mms"; "sftp"; "tel"].

(** [s in l] for a list of strings. *)
Definition str_in (s : string) (l : list string) : bool :=
  existsb (String.eqb s) l.

(** [c in scheme_chars]. *)
Definition scheme_chars (c : ascii) : bool :=
  Str.is_lower c || Str.is_upper c || Str.is_digit c
  || Ascii.eqb c "+" || Ascii.eqb c "-" || Ascii.eqb c ".".

(** [c in _WHATWG_C0_CONTROL_OR_SPACE]: the code points 0 to 32. *)
Definition _WHATWG_C0_CONTROL_OR_SPACE (c : ascii) : bool :=
  (Str.code c <=? 32)%nat.

(** [for b in _UNSAFE_URL_BYTES_TO_REMOVE: url = url.replace(b, "")]. *)
Definition remove_unsafe_bytes (url : string) : string :=
  Str.replace "010" "" (Str.replace "013" "" (Str.replace "009" "" url)).

Record SplitResult : Type := mkSplit {
  s_scheme : string; s_netloc : string; s_path : string;
  s_query : string; s_fragment : string
}.

Record ParseResult : Type := mkParse {
  scheme : string; netloc : string; path : string;
  params : string; query : string; fragment : string
}.

(** Python's [x, _, y = s.partition(c)] with its not-found case. *)
Definition partition3 (c : ascii) (s : string) : string * bool * string :=
  match Str.partition c s with
  | Some (b, a) => (b, true, a)
  | None => (s, false, "")
  end.

(** Python's [x, _, y = s.rpartition(c)]. *)
Definition rpartition3 (c : ascii) (s : string) : string * bool * string :=
  match Str.rpartition c s with
  | Some (b, a) => (b, true, a)
  | None => ("", false, s)
  end.

(** [_splitnetloc(url, 2)]. *)
Definition _splitnetloc (url : string) : string * string :=
  Str.span (fun c => Ascii.eqb c "/" || Ascii.eqb c "?" || Ascii.eqb c "#")
           (Str.drop2 url).

(** [_splitparams(url)], called when [';' in url]: the first [;] after
    the last [/]. *)
Definition _splitparams (url : string) : string * string :=
  match Str.rpartition "/" url with
  | Some (dir, last) =>
      match Str.partition ";" last with
      | Some (a, b) => (dir +:+ "/" +:+ a, b)
      | None => (url, "")
      end
  | None =>
      match Str.partition ";" url with
      | Some (a, b) => (a, b)
      | None => (url, "")
      end
  end.

(** The scheme part of [urlsplit]: [i = url.find(':')] and what follows;
    [before] is [url[:i]] and [after] is [url[i+1:]]. *)
Definition split_scheme (url scheme : string) : string * string :=
  match Str.partition ":" url with
  | Some (before, after) =>
      if negb (Str.is_empty before)
         && match url with
            | String c _ => Str.is_upper c || Str.is_lower c
            | EmptyString => false
            end
         && Str.forallb scheme_chars before
      then (Str.lower before, after)
      else (scheme, url)
  | None => (scheme, url)
  end.

(** [if c in url: url, x = url.split(c, 1)], with [x] empty otherwise. *)
Definition split_at (c : ascii) (url : string) : string * string :=
  match Str.partition c url with
  | Some (u, x) => (u, x)
  | None => (url, "")
  end.

Section UrllibParse.
Context {W : World}.

Definition _check_bracketed_host (hostname : string) : result unit :=
  if check_bracketed_host hostname then Ok tt else Raise ValueError.

Definition _check_bracketed_netloc (netloc : string) : result unit :=
  let '(_, _, hostname_and_port) := rpartition3 "@" netloc in
  let '(before_bracket, have_open_br, bracketed) :=
    partition3 "[" hostname_and_port in
  if have_open_br then
    if negb (Str.is_empty before_bracket) then Raise ValueError
    else
      let '(hostname, _, port) := partition3 "]" bracketed in
      if negb (Str.is_empty port) && negb (Str.startswith ":" port)
      then Raise ValueError
      else _check_bracketed_host hostname
  else
    let '(hostname, _, port) := partition3 ":" hostname_and_port in
    _check_bracketed_host hostname.

Definition _checknetloc (netloc : string) : result unit :=
  if Str.is_empty netloc || Str.forallb Str.is_ascii netloc then Ok tt
  else if checknetloc_nfkc netloc then Ok tt
  else Raise ValueError.

(** The netloc part of [urlsplit]: [if url[:2] == '//': ...]. *)
Definition split_netloc (url : string) : result (string * string) :=
  if String.eqb (Str.take2 url) "//" then
    let '(netloc, url) := _splitnetloc url in
    if (Str.contains "[" netloc && negb (Str.contains "]" netloc))
       || (Str.contains "]" netloc && negb (Str.contains "[" netloc))
    then Raise ValueError
    else
      do _ <- (if Str.contains "[" netloc && Str.contains "]" netloc
               then _check_bracketed_netloc netloc else Ok tt);
      Ok (netloc, url)
  else Ok ("", url).

Definition urlsplit (url scheme : string) : result SplitResult :=
  let url := Str.lstrip _WHATWG_C0_CONTROL_OR_SPACE url in
  let scheme := Str.strip _WHATWG_C0_CONTROL_OR_SPACE scheme in
  let url := remove_unsafe_bytes url in
  let scheme := remove_unsafe_bytes scheme in
  let '(scheme, url) := split_scheme url scheme in
  do (netloc, url) <- split_netloc url;
  let '(url, fragment) := split_at "#" url in
  let '(url, query) := split_at "?" url in
  do _ <- _checknetloc netloc;
  Ok (mkSplit scheme netloc url query fragment).

Definition urlparse (url scheme : string) : result ParseResult :=
  do r <- urlsplit url scheme;
  let '(url, params) :=
    if str_in (s_scheme r) uses_params && Str.contains ";" (s_path r)
    then _splitparams (s_path r)
    else (s_path r, "") in
  Ok (mkParse (s_scheme r) (s_netloc r) url params (s_query r)
              (s_fragment r)).

End UrllibParse.

Definition urlunsplit (scheme netloc url query fragment : string) : string :=
  let url :=
    if negb (Str.is_empty netloc)
       || (negb (Str.is_empty scheme) && str_in scheme uses_netloc
           && negb (String.eqb (Str.take2 url) "//"))
    then
      let url :=
        if negb (Str.is_empty url) && negb (Str.startswith "/" url)
        then "/" +:+ url else url in
      "//" +:+ netloc +:+ url
    else url in
  let url := if negb (Str.is_empty scheme) then scheme +:+ ":" +:+ url
             else url in
  let url := if negb (Str.is_empty query) then url +:+ "?" +:+ query
             else url in
  let url := if negb (Str.is_empty fragment) then url +:+ "#" +:+ fragment
             else url in
  url.

Definition urlunparse (scheme netloc url params query fragment : string)
  : string :=
  let url := if negb (Str.is_empty params) then url +:+ ";" +:+ params
             else url in
  urlunsplit scheme netloc url query fragment.

(** [ParseResult.hostname], computed from the netloc; [None] is Python's
    [None]. *)
Definition hostname_of_netloc (netloc : string) : option string :=
  let '(_, _, hostinfo) := rpartition3 "@" netloc in
  let '(_, have_open_br, bracketed) := partition3 "[" hostinfo in
  let hostname :=
    if have_open_br then
      let '(hostname, _, _) := partition3 "]" bracketed in hostname
    else
      let '(hostname, _, _) := partition3 ":" hostinfo in hostname in
  if Str.is_empty hostname then None
  else
    match Str.partition "%" hostname with
    | Some (h, zone) => Some (Str.lower h +:+ "%" +:+ zone)
    | None => Some (Str.lower hostname)
    end.

(** [segments[1:-1] = filter(None, segments[1:-1])]: the empty strings
    strictly between the first and the last segment are dropped. *)
Fixpoint filter_but_last (l : list string) : list string :=
  match l with
  | [] => []
  | [x] => [x]
  | x :: t => if Str.is_empty x then filter_but_last t
              else x :: filter_but_last t
  end.

Definition filter_middle (segments : list string) : list string :=
  match segments with
  | [] => []
  | h :: t => h :: filter_but_last t
  end.

(** The loop of [urljoin] over the segments; [resolved_path] is kept most
    recent first, so that [pop] removes its head. *)
Fixpoint resolve_segments (segments resolved_path : list string)
  : list string :=
  match segments with
  | [] => resolved_path
  | seg :: rest =>
      if String.eqb seg ".." then resolve_segments rest (tail resolved_path)
      else if String.eqb seg "." then resolve_segments rest resolved_path
      else resolve_segments rest (seg :: resolved_path)
  end.

(** [s or '/']. *)
Definition or_slash (s : string) : string :=
  if Str.is_empty s then "/" else s.

Section UrllibJoin.
Context {W : World}.

Definition urljoin (base url : string) : result string :=
  if Str.is_empty base then Ok url
  else if Str.is_empty url then Ok base
  else
    do b <- urlparse base "";
    do u <- urlparse url (scheme b);
    if negb (String.eqb (scheme u) (scheme b))
       || negb (str_in (scheme u) uses_relative)
    then Ok url
    else if str_in (scheme u) uses_netloc && negb (Str.is_empty (netloc u))
    then Ok (urlunparse (scheme u) (netloc u) (path u) (params u)
                        (query u) (fragment u))
    else
      let netloc := if str_in (scheme u) uses_netloc then netloc b
                    else netloc u in
      if Str.is_empty (path u) && Str.is_empty (params u) then
        let query := if Str.is_empty (query u) then query b
                     else query u in
        Ok (urlunparse (scheme u) netloc (path b) (params b) query
                       (fragment u))
      else
        let base_parts := Str.split "/" (path b) in
        let base_parts :=
          if negb (String.eqb (List.last base_parts "") "")
          then removelast base_parts else base_parts in
        let segments :=
          if Str.startswith "/" (path u) then Str.split "/" (path u)
          else filter_middle (base_parts ++ Str.split "/" (path u)) in
        let resolved_path := rev (resolve_segments segments []) in
        let resolved_path :=
          if String.eqb (List.last segments "") "."
             || String.eqb (List.last segments "") ".."
          then resolved_path ++ [""] else resolved_path in
        Ok (urlunparse (scheme u) netloc
                       (or_slash (Str.join "/" resolved_path))
                       (params u) (query u) (fragment u)).

(** [urldefrag(url)[0]]. *)
Definition urldefrag (url : string) : result string :=
  if Str.contains "#" url then
    do r <- urlparse url "";
    Ok (urlunparse (scheme r) (netloc r) (path r) (params r) (query r) "")
  else Ok url.

(** [urlparse(url).hostname]. *)
Definition urlparse_hostname (url : string) : result (option string) :=
  do r <- urlparse url "";
  Ok (hostname_of_netloc (netloc r)).

End UrllibJoin.

(** [html.escape(s)] with its default [quote=True]. *)
Definition escape (s : string) : string :=
  let s := Str.replace "&" "&amp;" s in
  let s := Str.replace "<" "&lt;" s in
  let s := Str.replace ">" "&gt;" s in
  let s := Str.replace "034" "&quot;" s in
  let s := Str.replace "'" "&#x27;" s in
  s.

(** ** [class Link] *)

Record Link : Type := mkLink {
  src : string; dst : string; link_type : string
}.

(** [Link.__eq__] and [Link.__hash__] compare the triple. *)
#[global] Instance Link_eq_dec : EqDecision Link.
Proof. solve_decision. Defined.

#[global] Instance Link_countable : Countable Link :=
  inj_countable' (fun l => (src l, dst l, link_type l))
                 (fun t => mkLink t.1.1 t.1.2 t.2)
                 (fun l => match l with mkLink _ _ _ => eq_refl end).

(** [Link.__str__]. *)
Definition Link_str (l : Link) : string := src l +:+ " -> " +:+ dst l.

(** ** [class Fetcher] *)

Record Fetcher : Type := mkFetcher {
  url : string; out_urls : list string
}.

Definition Fetcher_init (url : string) : Fetcher := mkFetcher url [].

Definition out_links (self : Fetcher) : list string := out_urls self.

(** ** [class Crawler] *)

(** The bound methods stored in the two filter lists. *)
Inductive filter : Type :=
| f_prefix_ok | f_exclude_ok | f_not_visited | f_same_host.

Record Crawler : Type := mkCrawler {
  root : string;
  host : option string;
  depth_limit : Z;
  locked : bool;
  confine_prefix : option string;
  exclude_prefixes : list string;
  urls_seen : gset string;
  urls_remembered : gset string;
  visited_links : gset string;
  links_remembered : gset Link;
  num_links : nat;
  num_followed : nat;
  pre_visit_filters : list filter;
  out_url_filters : list filter
}.

(** [self.urls_seen.add(link_url)]. *)
Definition add_seen (self : Crawler) (link_url : string) : Crawler :=
  mkCrawler (root self) (host self) (depth_limit self) (locked self)
    (confine_prefix self) (exclude_prefixes self)
    ({[link_url]} ∪ urls_seen self) (urls_remembered self)
    (visited_links self) (links_remembered self)
    (num_links self) (num_followed self)
    (pre_visit_filters self) (out_url_filters self).

(** [self.visited_links.add(this_url); self.num_followed += 1]. *)
Definition add_visited (self : Crawler) (this_url : string) : Crawler :=
  mkCrawler (root self) (host self) (depth_limit self) (locked self)
    (confine_prefix self) (exclude_prefixes self)
    (urls_seen self) (urls_remembered self)
    ({[this_url]} ∪ visited_links self) (links_remembered self)
    (num_links self) (S (num_followed self))
    (pre_visit_filters self) (out_url_filters self).

(** [self.num_links += 1; self.urls_remembered.add(link_url)] and the
    insertion of [Link(this_url, link_url, "href")]. *)
Definition add_remembered (self : Crawler) (this_url link_url : string)
  : Crawler :=
  mkCrawler (root self) (host self) (depth_limit self) (locked self)
    (confine_prefix self) (exclude_prefixes self)
    (urls_seen self) ({[link_url]} ∪ urls_remembered self)
    (visited_links self)
    (let link := mkLink this_url link_url "href" in
     if bool_decide (link ∉ links_remembered self)
     then {[link]} ∪ links_remembered self
     else links_remembered self)
    (S (num_links self)) (num_followed self)
    (pre_visit_filters self) (out_url_filters self).

(** One call of the loop: an item put on the queue or a page requested.
    The trace is kept most recent first; it records the calls of [q.put]
    and of [Fetcher(this_url).fetch()], with the depth of the item. *)
Inductive event : Type :=
| EvPut (url : string) (depth : Z)
| EvFetch (url : string) (depth : Z).

(** The state of a run of [crawl]: the crawler, the queue [q] (head
    leaves first) and the trace. *)
Record run : Type := mkRun {
  self : Crawler;
  q : list (string * Z);
  trace : list event
}.

(** [not l] for a list. *)
Definition is_nil {A : Type} (l : list A) : bool :=
  match l with [] => true | _ => false end.

Section Crawl.
Context {W : World}.

(** [Fetcher.fetch], the loop over the tags. *)
Fixpoint fetch_tags (self_url : string) (tags : list (option string))
    (out_urls : list string) : result (list string) :=
  match tags with
  | [] => Ok out_urls
  | None :: rest => fetch_tags self_url rest out_urls
  | Some href :: rest =>
      do url <- urljoin self_url (escape href);
      if bool_decide (url ∈ out_urls) then fetch_tags self_url rest out_urls
      else fetch_tags self_url rest (out_urls ++ [url])
  end.

(** [Fetcher.fetch]. The class [OpaqueDataException] named by the
    [raise] statement is defined nowhere, so evaluating the statement
    raises [NameError]; [HTTPError] and [URLError] are caught, everything
    else leaves the method. *)
Definition fetch (self : Fetcher) : result Fetcher :=
  match urlopen (url self) with
  | NoHandle => Ok self
  | OpenRaises HTTPError => Ok self
  | OpenRaises URLError => Ok self
  | OpenRaises e => Raise e
  | Response mime_type hrefs =>
      if negb (String.eqb mime_type "text/html") then Raise NameError
      else
        do urls <- fetch_tags (url self) hrefs (out_urls self);
        Ok (mkFetcher (url self) urls)
  end.

Definition Crawler_init (root : string) (depth_limit : Z)
    (confine : option string) (exclude : list string)
    (locked filter_seen : bool) : result Crawler :=
  do host <- urlparse_hostname root;
  Ok (mkCrawler root host depth_limit locked confine exclude
        ∅ ∅ ∅ ∅ 0%nat 0%nat
        [f_prefix_ok; f_exclude_ok; f_not_visited; f_same_host]
        (if filter_seen then [f_prefix_ok; f_same_host] else [])).

Definition _pre_visit_url_condense (self : Crawler) (url : string)
  : result string :=
  urldefrag url.

Definition _prefix_ok (self : Crawler) (url : string) : bool :=
  match confine_prefix self with
  | None => true
  | Some p => Str.startswith p url
  end.

Definition _exclude_ok (self : Crawler) (url : string) : bool :=
  forallb (fun p => negb (Str.startswith p url)) (exclude_prefixes self).

Definition _not_visited (self : Crawler) (url : string) : bool :=
  bool_decide (url ∉ visited_links self).

Definition _same_host (self : Crawler) (url : string) : bool :=
  match urlparse_hostname url with
  | Ok h => bool_decide (h = host self)
  | Raise _ => false
  end.

(** [f(url)] for a filter [f] of the crawler [self]. *)
Definition call (self : Crawler) (f : filter) (url : string) : bool :=
  match f with
  | f_prefix_ok => _prefix_ok self url
  | f_exclude_ok => _exclude_ok self url
  | f_not_visited => _not_visited self url
  | f_same_host => _same_host self url
  end.

(** [[f for f in filters if not f(url)]]. *)
Definition failing (self : Crawler) (filters : list filter) (url : string)
  : list filter :=
  List.filter (fun f => negb (call self f url)) filters.

(** The body of [for link_url in ...]. *)
Definition crawl_link (this_url : string) (depth : Z)
    (link_url : string) (r : run) : run :=
  let r :=
    if bool_decide (link_url ∉ urls_seen (self r)) then
      mkRun (add_seen (self r) link_url)
            (q r ++ [(link_url, depth + 1)])
            (EvPut link_url (depth + 1) :: trace r)
    else r in
  let do_not_remember :=
    failing (self r) (out_url_filters (self r)) link_url in
  if is_nil do_not_remember then
    mkRun (add_remembered (self r) this_url link_url) (q r) (trace r)
  else r.

(** The [for] loop over the condensed links of one page. *)
Fixpoint crawl_links (this_url : string) (depth : Z)
    (links : list string) (r : run) : run :=
  match links with
  | [] => r
  | link_url :: rest =>
      crawl_links this_url depth rest (crawl_link this_url depth link_url r)
  end.

(** What the [try] block computes before its [for] loop starts: the page
    is fetched and every outbound link is condensed. *)
Definition page_links (self : Crawler) (this_url : string)
  : result (list string) :=
  do page <- fetch (Fetcher_init this_url);
  mapM (_pre_visit_url_condense self) (out_links page).

(** One iteration of [while not q.empty()]. *)
Definition crawl_step (r : run) : run :=
  match q r with
  | [] => r
  | (this_url, depth) :: rest =>
      let r := mkRun (self r) rest (trace r) in
      if depth >? depth_limit (self r) then r
      else
        let do_not_follow :=
          failing (self r) (pre_visit_filters (self r)) this_url in
        if is_nil do_not_follow then
          let r := mkRun (add_visited (self r) this_url) (q r)
                         (EvFetch this_url depth :: trace r) in
          match page_links (self r) this_url with
          | Ok links => crawl_links this_url depth links r
          | Raise e => r
          end
        else r
  end.

Fixpoint crawl_loop (fuel : nat) (r : run) : run :=
  match fuel with
  | O => r
  | S fuel' =>
      match q r with
      | [] => r
      | _ :: _ => crawl_loop fuel' (crawl_step r)
      end
  end.

(** The links a page contributes when it is fetched, none on an error. *)
Definition links_or_nil (self : Crawler) (this_url : string)
  : list string :=
  match page_links self this_url with
  | Ok links => links
  | Raise _ => []
  end.

(** A bound on the iterations caused by an item with [k] levels left
    below it. *)
Fixpoint subtree_cost (self : Crawler) (k : nat) (url : string) : nat :=
  match k with
  | O => 1
  | S k' => S (list_sum (map (subtree_cost self k') (links_or_nil self url)))
  end.

(** The same bound for a whole queue. *)
Definition queue_cost (self : Crawler) (q : list (string * Z)) : nat :=
  list_sum (map (fun it => subtree_cost self
                             (Z.to_nat (depth_limit self + 1 - it.2)) it.1)
                q).

(** The state after [q.put((self.root, 0))]. *)
Definition start (self : Crawler) : run :=
  mkRun self [(root self, 0)] [EvPut (root self) 0].

(** [Crawler.crawl]: the loop run until the queue is empty. *)
Definition crawl (self : Crawler) : run :=
  crawl_loop (queue_cost self [(root self, 0)]) (start self).

(** ** [getLinks] and [main] *)

(** The loop of [getLinks]: the printed lines, [j] the next number. *)
Fixpoint getLinks_lines (urls : list string) (j : nat) : list string :=
  match urls with
  | [] => []
  | url :: rest =>
      if Str.has_substring "http" url
      then (Str.of_nat j +:+ ". " +:+ url) :: getLinks_lines rest (S j)
      else getLinks_lines rest j
  end.

(** [getLinks(url)]: the lines written to standard output. *)
Definition getLinks (url : string) : result (list string) :=
  do page <- fetch (Fetcher_init url);
  Ok (getLinks_lines (out_urls page) 1).

End Crawl.

(** How the process ends. *)
Inductive termination : Type :=
| Returned
| Exit (code : Z)
| Uncaught (e : exn).

(** What a run of [main] leaves behind: the lines on standard output, the
    two numbers of the summary when it is printed, and how it ended. *)
Record process : Type := mkProcess {
  stdout : list string;
  summary : option (nat * nat);
  status : termination
}.

Section Main.
Context {W : World}.

(** [main], given the parsed options [opts.links], [opts.depth_limit]
    and the positional arguments; [parse_options] leaves with status 1
    when there is no argument. *)
Definition main (links : bool) (depth_limit : Z) (args : list string)
  : process :=
  match args with
  | [] => mkProcess [] None (Exit 1)
  | url :: _ =>
      if links then
        match getLinks url with
        | Ok lines => mkProcess lines None (Exit 0)
        | Raise e => mkProcess [] None (Uncaught e)
        end
      else
        match Crawler_init url depth_limit None [] true true with
        | Ok crawler =>
            let r := crawl crawler in
            mkProcess []
              (Some (num_links (self r), num_followed (self r))) Returned
        | Raise e => mkProcess [] None (Uncaught e)
        end
  end.

End Main.

(** The URLs requested during a run, and the URLs put on the queue. *)
Definition fetched (t : list event) : list string :=
  omap (fun e => match e with EvFetch u _ => Some u | _ => None end) t.

Definition puts (t : list event) : list string :=
  omap (fun e => match e with EvPut u _ => Some u | _ => None end) t.

(** ** Sample webs *)

(** A network given by a table of pages; an unlisted URL does not answer. *)
Definition table_web (pages : list (string * open_outcome)) : World :=
  {| check_bracketed_host := fun _ => false;
     checknetloc_nfkc := fun _ => true;
     urlopen := fun u =>
       match List.find (fun p => String.eqb u p.1) pages with
       | Some p => p.2
       | None => OpenRaises URLError
       end |}.

(** An HTML page with the given anchors. *)
Definition html (hrefs : list string) : open_outcome :=
  Response "text/html" (map Some hrefs).

(** The root page links to itself. *)
Definition web_self_link : World :=
  table_web [("http://root.example/", html ["/"])].

(** The root page of scenario A, with a page [/a] without anchors. *)
Definition web_scenario_a : World :=
  table_web [("http://root.example",
              html ["/a"; "http://other.example/b"]);
             ("http://root.example/a", html []);
             ("http://other.example/b", html ["/never"])].

(** The same root page, but [/a] has an anchor of its own. *)
Definition web_scenario_a_deeper : World :=
  table_web [("http://root.example",
              html ["/a"; "http://other.example/b"]);
             ("http://root.example/a", html ["/c"]);
             ("http://root.example/c", html [])].


(** A root page with three same-host anchors and one foreign anchor. *)
Definition web_scenario_c : World :=
  table_web [("http://root.example/",
              html ["/x"; "/y#top"; "/y#end"; "http://other.example/z"]);
             ("http://root.example/x", html ["/deep"]);
             ("http://root.example/y", html [])].

(** The root page links to a PDF document. *)
Definition web_scenario_d : World :=
  table_web [("http://root.example/", html ["/doc.pdf"; "/p"]);
             ("http://root.example/doc.pdf", Response "application/pdf" []);
             ("http://root.example/p", html [])].

(** * Definitions used to state the properties *)

(** The fields of a crawler that [crawl] only reads. *)
Definition same_settings (c1 c2 : Crawler) : Prop :=
  root c1 = root c2 /\ host c1 = host c2 /\
  depth_limit c1 = depth_limit c2 /\ locked c1 = locked c2 /\
  confine_prefix c1 = confine_prefix c2 /\
  exclude_prefixes c1 = exclude_prefixes c2 /\
  pre_visit_filters c1 = pre_visit_filters c2 /\
  out_url_filters c1 = out_url_filters c2.

(** [visited_links] holds the URLs requested so far, each requested
    once, and [num_followed] counts them. *)
Definition followed_inv (r : run) : Prop :=
  In f_not_visited (pre_visit_filters (self r)) /\
  visited_links (self r) = list_to_set (fetched (trace r)) /\
  NoDup (fetched (trace r)) /\
  num_followed (self r) = length (fetched (trace r)).

(** No depth is negative, and every visited URL was requested for an
    item within the depth limit. *)
Definition depth_inv (r : run) : Prop :=
  (forall u d, (u, d) ∈ q r -> 0 <= d) /\
  (forall u, u ∈ visited_links (self r) ->
     exists d, EvFetch u d ∈ trace r /\ 0 <= d <= depth_limit (self r)).

(** Every remembered Link leads to the host of the root. *)
Definition host_inv {W : World} (r : run) : Prop :=
  In f_same_host (out_url_filters (self r)) /\
  (forall l, l ∈ links_remembered (self r) ->
     _same_host (self r) (dst l) = true).

(** A crawler as [Crawler("http://root.example", 30)] builds it. *)
Definition crawler_a : Crawler :=
  mkCrawler "http://root.example" (Some "root.example") 30 true None []
    ∅ ∅ ∅ ∅ 0%nat 0%nat
    [f_prefix_ok; f_exclude_ok; f_not_visited; f_same_host]
    [f_prefix_ok; f_same_host].

(** Every put but the first one, of the root, is recorded in [urls_seen]
    and is of a URL that was not yet in it. *)
Definition put_inv (r : run) : Prop :=
  exists ps, puts (trace r) = ps ++ [root (self r)] /\ NoDup ps /\
             urls_seen (self r) = list_to_set ps.

(** [Crawler("http://root.example/", 30)]. *)
Definition crawler_self_link : Crawler :=
  mkCrawler "http://root.example/" (Some "root.example") 30 true None []
    ∅ ∅ ∅ ∅ 0%nat 0%nat
    [f_prefix_ok; f_exclude_ok; f_not_visited; f_same_host]
    [f_prefix_ok; f_same_host].

(** A crawler in the middle of a run: the root was visited and the link
    to a PDF document was seen. *)
Definition crawler_d : Crawler :=
  mkCrawler "http://root.example/" (Some "root.example") 5 true None []
    {[ "http://root.example/doc.pdf" ]} ∅ {[ "http://root.example/" ]} ∅
    0%nat 1%nat
    [f_prefix_ok; f_exclude_ok; f_not_visited; f_same_host]
    [f_prefix_ok; f_same_host].

(** Its run, with the PDF document at the head of the queue. *)
Definition run_d : run :=
  mkRun crawler_d [("http://root.example/doc.pdf", 1)] [].

(** The same crawler with another value of [locked]. *)
Definition set_locked (b : bool) (c : Crawler) : Crawler :=
  mkCrawler (root c) (host c) (depth_limit c) b
    (confine_prefix c) (exclude_prefixes c)
    (urls_seen c) (urls_remembered c) (visited_links c) (links_remembered c)
    (num_links c) (num_followed c)
    (pre_visit_filters c) (out_url_filters c).

(** The same run for that crawler. *)
Definition relock (b : bool) (r : run) : run :=
  mkRun (set_locked b (self r)) (q r) (trace r).

(** A link passes every report filter. *)
Definition report_ok {W : World} (c : Crawler) (link_url : string) : bool :=
  is_nil (failing c (out_url_filters c) link_url).

(** [Link(this_url, link_url, "href")]. *)
Definition href_link (this_url link_url : string) : Link :=
  mkLink this_url link_url "href".


(** The lines [j. url], [j+1. url'], ... for a list of URLs. *)
Fixpoint numbered_from (j : nat) (urls : list string) : list string :=
  match urls with
  | [] => []
  | url :: rest =>
      (Str.of_nat j +:+ ". " +:+ url) :: numbered_from (S j) rest
  end.

(** What [urlparse] followed by [urlunparse] without the fragment makes of
    a URL. *)
Definition reserialize {W : World} (url : string) : result string :=
  do r <- urlparse url "";
  Ok (urlunparse (scheme r) (netloc r) (path r) (params r) (query r) "").



(** ** Further definitions: the sequence protocol of [Fetcher] *)

(** [Fetcher.__getitem__] for an integer index: [self.out_urls[x]], where a
    negative index counts from the end; [None] stands for [IndexError]. *)
Definition Fetcher_getitem (self : Fetcher) (x : Z) : option string :=
  let n := Z.of_nat (length (out_urls self)) in
  if (0 <=? x) && (x <? n) then out_urls self !! Z.to_nat x
  else if (- n <=? x) && (x <? 0) then out_urls self !! Z.to_nat (n + x)
  else None.

(** Iteration over an object that only has [__getitem__]: the items at
    the indexes [i], [i+1], ... until [IndexError]. *)
Fixpoint Fetcher_iter_from (self : Fetcher) (fuel : nat) (i : Z)
  : list string :=
  match fuel with
  | O => []
  | S fuel' =>
      match Fetcher_getitem self i with
      | Some x => x :: Fetcher_iter_from self fuel' (i + 1)
      | None => []
      end
  end.

(** [url in self] for a [Fetcher], through that iteration. *)
Definition Fetcher_contains (self : Fetcher) (fuel : nat) (url : string)
  : bool :=
  existsb (String.eqb url) (Fetcher_iter_from self fuel 0).

(** ** Further sample webs and crawlers *)

(** The second anchor of the root page does not resolve. *)
Definition web_bad_href : World :=
  table_web [("http://root.example/", html ["/ok"; "http://[::1/x"]);
             ("http://root.example/ok", html [])].

(** The root answers with an HTTP error. *)
Definition web_http_error : World :=
  table_web [("http://root.example/", OpenRaises HTTPError)].

(** A site with a documentation tree and a private part. *)
Definition web_docs : World :=
  table_web [("http://root.example/docs/",
              html ["/docs/a"; "/docs/private/x"; "/blog"; "/docs/a#s1";
                    "http://other.example/docs/"]);
             ("http://root.example/docs/a", html ["/docs/b"; "/docs/"]);
             ("http://root.example/docs/b", html []);
             ("http://root.example/docs/private/x", html ["/docs/secret"]);
             ("http://root.example/blog", html ["/docs/c"])].

(** [Crawler("http://root.example/docs/", 30,
    confine="http://root.example/docs/",
    exclude=["http://root.example/docs/private"])]. *)
Definition crawler_docs : Crawler :=
  mkCrawler "http://root.example/docs/" (Some "root.example") 30 true
    (Some "http://root.example/docs/") ["http://root.example/docs/private"]
    ∅ ∅ ∅ ∅ 0%nat 0%nat
    [f_prefix_ok; f_exclude_ok; f_not_visited; f_same_host]
    [f_prefix_ok; f_same_host].

(** The same with [filter_seen=False]. *)
Definition crawler_docs_all : Crawler :=
  mkCrawler "http://root.example/docs/" (Some "root.example") 30 true
    (Some "http://root.example/docs/") ["http://root.example/docs/private"]
    ∅ ∅ ∅ ∅ 0%nat 0%nat
    [f_prefix_ok; f_exclude_ok; f_not_visited; f_same_host]
    [].

(** [Crawler("http://root.example/", 30, confine="http://root.example/docs/")]:
    the root is outside the confine prefix. *)
Definition crawler_outside : Crawler :=
  mkCrawler "http://root.example/" (Some "root.example") 30 true
    (Some "http://root.example/docs/") []
    ∅ ∅ ∅ ∅ 0%nat 0%nat
    [f_prefix_ok; f_exclude_ok; f_not_visited; f_same_host]
    [f_prefix_ok; f_same_host].

(** ** Further definitions used to state the properties *)

(** The depths of the requests and of the puts of a trace, most recent
    first. *)
Definition fetch_depths (t : list event) : list Z :=
  omap (fun e => match e with EvFetch _ d => Some d | _ => None end) t.

Definition put_depths (t : list event) : list Z :=
  omap (fun e => match e with EvPut _ d => Some d | _ => None end) t.

(** The links of a page that pass the report filters, in their order. *)
Definition reported {W : World} (c : Crawler) (src : string) : list string :=
  List.filter (report_ok c) (links_or_nil c src).

(** What a run has accumulated, in terms of the pages requested so far:
    the seen URLs are their links, the remembered URLs and Links and the
    count are their reported links, and whatever is queued or visited is
    the root or a seen URL. *)
Definition graph_inv {W : World} (c : Crawler) (r : run) : Prop :=
  same_settings (self r) c /\
  visited_links (self r) = list_to_set (fetched (trace r)) /\
  urls_seen (self r)
    = list_to_set (flat_map (links_or_nil c) (fetched (trace r))) /\
  urls_remembered (self r)
    = list_to_set (flat_map (reported c) (fetched (trace r))) /\
  links_remembered (self r)
    = list_to_set (flat_map (fun src => map (href_link src) (reported c src))
                            (fetched (trace r))) /\
  num_links (self r) = length (flat_map (reported c) (fetched (trace r))) /\
  (forall u d, (u, d) ∈ q r -> u = root c \/ u ∈ urls_seen (self r)) /\
  (forall u, u ∈ visited_links (self r) ->
     u = root c \/ u ∈ urls_seen (self r)).

(** A URL passes the follow filters that do not depend on the run. *)
Definition follow_ok {W : World} (c : Crawler) (u : string) : bool :=
  _prefix_ok c u && _exclude_ok c u && _same_host c u.

(** Every visited URL passed them. *)
Definition scope_inv {W : World} (c : Crawler) (r : run) : Prop :=
  same_settings (self r) c /\
  (forall u, u ∈ visited_links (self r) -> follow_ok c u = true).

(** The queue is in breadth-first order around a level [lo], the depth
    of the last item that left it: the queued depths never decrease and
    lie in [lo .. lo + 1], no request was deeper than [lo] and no put
    deeper than [lo + 1], and both kinds of events happened in the order
    of their depths. *)
Definition bfs_inv (r : run) : Prop :=
  exists lo,
    0 <= lo /\
    (forall v k, (v, k) ∈ q r -> lo <= k <= lo + 1) /\
    StronglySorted Z.le (map snd (q r)) /\
    (forall f, f ∈ fetch_depths (trace r) -> 0 <= f <= lo) /\
    (forall f, f ∈ fetch_depths (trace r) -> f <= depth_limit (self r)) /\
    (forall p, p ∈ put_depths (trace r) -> 0 <= p <= lo + 1) /\
    (forall p, p ∈ put_depths (trace r) ->
       p = 0 \/ p <= depth_limit (self r) + 1) /\
    StronglySorted Z.ge (fetch_depths (trace r)) /\
    StronglySorted Z.ge (put_depths (trace r)).

(** Two runs agree on everything the traversal depends on: the queue,
    the events so far, the settings read by the follow filters, and the
    seen and visited URLs. *)
Definition same_frontier (r1 r2 : run) : Prop :=
  q r1 = q r2 /\ trace r1 = trace r2 /\
  host (self r1) = host (self r2) /\
  depth_limit (self r1) = depth_limit (self r2) /\
  confine_prefix (self r1) = confine_prefix (self r2) /\
  exclude_prefixes (self r1) = exclude_prefixes (self r2) /\
  pre_visit_filters (self r1) = pre_visit_filters (self r2) /\
  urls_seen (self r1) = urls_seen (self r2) /\
  visited_links (self r1) = visited_links (self r2) /\
  num_followed (self r1) = num_followed (self r2).

(** * Properties *)

(** ** The library functions on sample inputs

    The values are those that CPython's [urllib.parse] and [html.escape]
    return. *)

Section Samples.
Context {W : World}.

Example urljoin_absolute_path :
  urljoin "http://root.example" "/a" = Ok "http://root.example/a".
Proof. vm_compute. reflexivity. Qed.

Example urljoin_other_host :
  urljoin "http://root.example/x/y" "http://other.example/b"
  = Ok "http://other.example/b".
Proof. vm_compute. reflexivity. Qed.

Example urljoin_mailto :
  urljoin "http://root.example" "mailto:x@example.com"
  = Ok "mailto:x@example.com".
Proof. vm_compute. reflexivity. Qed.

Example urljoin_dot_segments :
  urljoin "http://root.example/a/b/c?q=1#f" "../x/./y"
  = Ok "http://root.example/a/x/y".
Proof. vm_compute. reflexivity. Qed.

Example urljoin_query_only :
  urljoin "http://root.example/a/b" "?z=1" = Ok "http://root.example/a/b?z=1".
Proof. vm_compute. reflexivity. Qed.

Example urljoin_unbalanced_bracket :
  urljoin "http://root.example/" "http://[::1/x" = Raise ValueError.
Proof. vm_compute. reflexivity. Qed.

Example urldefrag_fragment :
  urldefrag "http://root.example/y#top" = Ok "http://root.example/y".
Proof. vm_compute. reflexivity. Qed.

Example urldefrag_empty_query :
  urldefrag "http://x/?#f" = Ok "http://x/".
Proof. vm_compute. reflexivity. Qed.

Example urldefrag_no_fragment :
  urldefrag " HTTP://x/?" = Ok " HTTP://x/?".
Proof. vm_compute. reflexivity. Qed.

Example hostname_lower_case :
  urlparse_hostname "http://u:p@Host.COM:8/x" = Ok (Some "host.com").
Proof. vm_compute. reflexivity. Qed.

Example hostname_absent :
  urlparse_hostname "mailto:x@example.com" = Ok None.
Proof. vm_compute. reflexivity. Qed.

Example escape_ampersand :
  escape "/p?a=1&b=<2>" = "/p?a=1&amp;b=&lt;2&gt;".
Proof. vm_compute. reflexivity. Qed.

End Samples.

(** ** The loop: settings, steps, termination *)

Lemma same_settings_refl c : same_settings c c.
Proof. repeat split. Qed.

Lemma same_settings_trans c1 c2 c3 :
  same_settings c1 c2 -> same_settings c2 c3 -> same_settings c1 c3.
Proof.
  unfold same_settings. intros H1 H2.
  destruct H1 as (?&?&?&?&?&?&?&?), H2 as (?&?&?&?&?&?&?&?).
  repeat split; congruence.
Qed.

Section Loop.
Context {W : World}.

Lemma crawl_link_settings u d l r :
  same_settings (self (crawl_link u d l r)) (self r).
Proof.
  unfold crawl_link.
  repeat (case_bool_decide || case_match); simpl; repeat split.
Qed.

Lemma crawl_links_settings u d ls r :
  same_settings (self (crawl_links u d ls r)) (self r).
Proof.
  revert r. induction ls as [|l ls IH]; intros r; simpl.
  - apply same_settings_refl.
  - eapply same_settings_trans; [apply IH | apply crawl_link_settings].
Qed.

(** The two ways an iteration can go: the item is dropped (too deep, or
    rejected by a follow filter), or its page is requested. *)
Lemma crawl_step_drop r this_url depth rest :
  q r = (this_url, depth) :: rest ->
  depth > depth_limit (self r) \/
  failing (self r) (pre_visit_filters (self r)) this_url <> [] ->
  crawl_step r = mkRun (self r) rest (trace r).
Proof.
  intros Hq H. unfold crawl_step. rewrite Hq. simpl.
  destruct (depth >? depth_limit (self r)) eqn:E; [done|].
  destruct H as [H|H]; [rewrite Z.gtb_ltb in E; apply Z.ltb_ge in E; lia|].
  destruct (failing _ _ _); [done | reflexivity].
Qed.

Lemma crawl_step_fetch r this_url depth rest :
  q r = (this_url, depth) :: rest ->
  depth <= depth_limit (self r) ->
  failing (self r) (pre_visit_filters (self r)) this_url = [] ->
  crawl_step r =
    crawl_links this_url depth (links_or_nil (self r) this_url)
      (mkRun (add_visited (self r) this_url) rest
             (EvFetch this_url depth :: trace r)).
Proof.
  intros Hq Hd Hf. unfold crawl_step. rewrite Hq. simpl.
  destruct (depth >? depth_limit (self r)) eqn:E.
  { apply Z.gtb_lt in E. lia. }
  rewrite Hf. simpl. unfold links_or_nil.
  change (page_links (add_visited (self r) this_url) this_url)
    with (page_links (self r) this_url).
  destruct (page_links (self r) this_url); reflexivity.
Qed.

Lemma crawl_step_cases r this_url depth rest :
  q r = (this_url, depth) :: rest ->
  crawl_step r = mkRun (self r) rest (trace r) \/
  (depth <= depth_limit (self r) /\
   failing (self r) (pre_visit_filters (self r)) this_url = [] /\
   crawl_step r =
     crawl_links this_url depth (links_or_nil (self r) this_url)
       (mkRun (add_visited (self r) this_url) rest
              (EvFetch this_url depth :: trace r))).
Proof.
  intros Hq.
  destruct (Z_gt_le_dec depth (depth_limit (self r))) as [Hd|Hd].
  { left. apply (crawl_step_drop _ _ _ _ Hq). by left. }
  destruct (failing (self r) (pre_visit_filters (self r)) this_url) eqn:Hf.
  - right. repeat split; [lia | by apply crawl_step_fetch].
  - left. apply (crawl_step_drop _ _ _ _ Hq). right. by rewrite Hf.
Qed.

Lemma crawl_step_nil r : q r = [] -> crawl_step r = r.
Proof. intros H. unfold crawl_step. by rewrite H. Qed.

Lemma crawl_step_settings r : same_settings (self (crawl_step r)) (self r).
Proof.
  destruct (q r) as [|[u d] rest] eqn:Hq.
  - rewrite crawl_step_nil by done. apply same_settings_refl.
  - destruct (crawl_step_cases _ _ _ _ Hq) as [->|(_&_&->)].
    + apply same_settings_refl.
    + eapply same_settings_trans; [apply crawl_links_settings|].
      repeat split.
Qed.

(** A property kept by every iteration holds when the loop stops. *)
Lemma crawl_loop_invariant (P : run -> Prop) :
  (forall r, P r -> P (crawl_step r)) ->
  forall fuel r, P r -> P (crawl_loop fuel r).
Proof.
  intros Hstep fuel. induction fuel as [|n IH]; intros r Hr; simpl; [done|].
  destruct (q r); [done|]. apply IH, Hstep, Hr.
Qed.

Lemma crawl_loop_nil fuel r : q r = [] -> crawl_loop fuel r = r.
Proof. intros H. destruct fuel; simpl; [done|]. by rewrite H. Qed.

Lemma crawl_loop_unfold fuel r :
  q r <> [] -> crawl_loop (S fuel) r = crawl_loop fuel (crawl_step r).
Proof. intros H. simpl. destruct (q r); [done | reflexivity]. Qed.

(** Once the queue is empty, more fuel changes nothing. *)
Lemma crawl_loop_stable n m r :
  q (crawl_loop n r) = [] -> (n <= m)%nat ->
  crawl_loop m r = crawl_loop n r.
Proof.
  revert m r. induction n as [|n IH]; intros m r Hq Hle.
  - simpl in *. by apply crawl_loop_nil.
  - destruct m as [|m]; [lia|].
    destruct (q r) eqn:E.
    + by rewrite !crawl_loop_nil.
    + simpl in *. rewrite E in *. apply IH; [done | lia].
Qed.

Lemma crawl_loop_settings fuel r :
  same_settings (self (crawl_loop fuel r)) (self r).
Proof.
  apply (crawl_loop_invariant (fun r' => same_settings (self r') (self r))).
  - intros r' H. eapply same_settings_trans; [apply crawl_step_settings|done].
  - apply same_settings_refl.
Qed.

(** *** Termination *)

Lemma subtree_cost_self s1 s2 k u :
  subtree_cost s1 k u = subtree_cost s2 k u.
Proof.
  revert u. induction k as [|k IH]; intros u; simpl; [done|].
  f_equal. f_equal. apply map_ext. intros a. apply IH.
Qed.

Lemma subtree_cost_pos s k u : (1 <= subtree_cost s k u)%nat.
Proof. destruct k; simpl; lia. Qed.

Lemma queue_cost_self s1 s2 l :
  depth_limit s1 = depth_limit s2 -> queue_cost s1 l = queue_cost s2 l.
Proof.
  intros H. unfold queue_cost. f_equal. apply map_ext. intros a.
  rewrite H. apply subtree_cost_self.
Qed.

Lemma queue_cost_app s l1 l2 :
  queue_cost s (l1 ++ l2) = (queue_cost s l1 + queue_cost s l2)%nat.
Proof. unfold queue_cost. by rewrite map_app, list_sum_app. Qed.

Lemma queue_cost_cons s u d l :
  queue_cost s ((u, d) :: l) =
  (subtree_cost s (Z.to_nat (depth_limit s + 1 - d)) u + queue_cost s l)%nat.
Proof. reflexivity. Qed.

Lemma crawl_link_cost s u d l r :
  depth_limit (self r) = depth_limit s ->
  (queue_cost s (q (crawl_link u d l r)) <=
   queue_cost s (q r)
   + subtree_cost s (Z.to_nat (depth_limit s + 1 - (d + 1))) l)%nat.
Proof.
  intros _. unfold crawl_link.
  repeat (case_bool_decide || case_match); simpl;
    rewrite ?queue_cost_app, ?queue_cost_cons; unfold queue_cost; simpl; lia.
Qed.

Lemma crawl_links_cost s u d ls r :
  depth_limit (self r) = depth_limit s ->
  (queue_cost s (q (crawl_links u d ls r)) <=
   queue_cost s (q r)
   + list_sum (map (subtree_cost s (Z.to_nat (depth_limit s + 1 - (d + 1))))
                   ls))%nat.
Proof.
  revert r. induction ls as [|l ls IH]; intros r Hr; simpl; [lia|].
  etrans; [apply IH|].
  - destruct (crawl_link_settings u d l r) as (_&_&->&_). done.
  - pose proof (crawl_link_cost s u d l r Hr). lia.
Qed.

Lemma crawl_step_cost r :
  q r <> [] ->
  (queue_cost (self r) (q (crawl_step r)) < queue_cost (self r) (q r))%nat.
Proof.
  intros Hne. destruct (q r) as [|[u d] rest] eqn:Hq; [done|].
  rewrite queue_cost_cons.
  pose proof (subtree_cost_pos (self r)
                (Z.to_nat (depth_limit (self r) + 1 - d)) u) as Hpos.
  destruct (crawl_step_cases _ _ _ _ Hq) as [->|(Hd&_&->)]; simpl; [lia|].
  eapply Nat.le_lt_trans; [apply crawl_links_cost; reflexivity|]. simpl.
  replace (Z.to_nat (depth_limit (self r) + 1 - d))
    with (S (Z.to_nat (depth_limit (self r) + 1 - (d + 1)))) by lia.
  simpl. lia.
Qed.

Lemma crawl_loop_terminates fuel r :
  (queue_cost (self r) (q r) <= fuel)%nat -> q (crawl_loop fuel r) = [].
Proof.
  revert r. induction fuel as [|n IH]; intros r Hc.
  - simpl. destruct (q r) as [|[u d] rest] eqn:Hq; [done|].
    rewrite queue_cost_cons in Hc.
    pose proof (subtree_cost_pos (self r)
                  (Z.to_nat (depth_limit (self r) + 1 - d)) u). lia.
  - destruct (q r) eqn:Hq; [by rewrite crawl_loop_nil|].
    rewrite crawl_loop_unfold by (by rewrite Hq).
    apply IH.
    assert (q r <> []) as Hne by (by rewrite Hq).
    pose proof (crawl_step_cost r Hne) as Hlt.
    destruct (crawl_step_settings r) as (_&_&Hdl&_).
    rewrite (queue_cost_self _ (self r)) by done. rewrite Hq in Hlt. lia.
Qed.

(** [crawl] returns: it stops with an empty queue. *)
Lemma crawl_terminates c : q (crawl c) = [].
Proof. apply crawl_loop_terminates. reflexivity. Qed.

(** Any amount of fuel that empties the queue gives the result of
    [crawl]. *)
Lemma crawl_eq_loop c fuel :
  q (crawl_loop fuel (start c)) = [] -> crawl c = crawl_loop fuel (start c).
Proof.
  intros H. unfold crawl.
  destruct (Nat.le_ge_cases fuel (queue_cost c [(root c, 0)])) as [Hle|Hle].
  - by apply crawl_loop_stable.
  - symmetry. apply crawl_loop_stable; [apply crawl_terminates | done].
Qed.

Lemma crawl_invariant (P : run -> Prop) c :
  P (start c) -> (forall r, P r -> P (crawl_step r)) -> P (crawl c).
Proof. intros H0 Hstep. unfold crawl. by apply (crawl_loop_invariant P). Qed.

Lemma crawl_settings c : same_settings (self (crawl c)) c.
Proof. apply (crawl_loop_settings _ (start c)). Qed.

End Loop.

(** ** What one page does to the crawler *)

Section Pages.
Context {W : World}.

Lemma failing_nil c fs u :
  failing c fs u = [] <-> forall f, In f fs -> call c f u = true.
Proof.
  unfold failing. induction fs as [|f fs IH]; simpl.
  - split; [intros _ f [] | done].
  - destruct (call c f u) eqn:E; simpl.
    + rewrite IH. split.
      * intros H g [<-|Hg]; [done | by apply H].
      * intros H g Hg. apply H. by right.
    + split; [done|]. intros H. specialize (H f (or_introl eq_refl)).
      congruence.
Qed.

Lemma elem_of_add_remembered c u l x :
  x ∈ links_remembered (add_remembered c u l) <->
  x = mkLink u l "href" \/ x ∈ links_remembered c.
Proof.
  simpl. case_bool_decide as H; set_solver.
Qed.

(** A link of a page touches neither the visited set nor the count of
    followed pages, and requests nothing. *)
Lemma crawl_link_visited u d l r :
  visited_links (self (crawl_link u d l r)) = visited_links (self r) /\
  num_followed (self (crawl_link u d l r)) = num_followed (self r) /\
  fetched (trace (crawl_link u d l r)) = fetched (trace r).
Proof.
  unfold crawl_link.
  destruct (bool_decide (l ∉ urls_seen (self r))); simpl;
    destruct (failing _ _ _); simpl; done.
Qed.

Lemma crawl_links_visited u d ls r :
  visited_links (self (crawl_links u d ls r)) = visited_links (self r) /\
  num_followed (self (crawl_links u d ls r)) = num_followed (self r) /\
  fetched (trace (crawl_links u d ls r)) = fetched (trace r).
Proof.
  revert r. induction ls as [|l ls IH]; intros r; simpl; [done|].
  destruct (IH (crawl_link u d l r)) as (->&->&->).
  apply crawl_link_visited.
Qed.

Lemma crawl_link_fetch_events u d l r e :
  (forall v k, e <> EvPut v k) ->
  e ∈ trace (crawl_link u d l r) <-> e ∈ trace r.
Proof.
  intros He. unfold crawl_link.
  destruct (bool_decide (l ∉ urls_seen (self r))); simpl;
    destruct (failing _ _ _); simpl; try done;
    rewrite elem_of_cons; naive_solver.
Qed.

Lemma crawl_links_fetch_events u d ls r e :
  (forall v k, e <> EvPut v k) ->
  e ∈ trace (crawl_links u d ls r) <-> e ∈ trace r.
Proof.
  intros He. revert r. induction ls as [|l ls IH]; intros r; simpl; [done|].
  rewrite IH. by apply crawl_link_fetch_events.
Qed.

(** A link is remembered only when it passes every report filter. *)
Lemma crawl_link_remembered u d l r x :
  x ∈ links_remembered (self (crawl_link u d l r)) ->
  x ∈ links_remembered (self r) \/
  (x = mkLink u l "href" /\
   failing (self r) (out_url_filters (self r)) l = []).
Proof.
  unfold crawl_link.
  destruct (bool_decide (l ∉ urls_seen (self r))); cbn [self];
    match goal with
    | |- context [is_nil ?t] => destruct t eqn:E
    end; cbn [is_nil self]; try (by left);
    rewrite elem_of_add_remembered; cbn [add_seen links_remembered];
    (intros [->|H]; [right; split; [done|first [done | exact E]] | by left]).
Qed.

Lemma crawl_links_remembered u d ls r x :
  x ∈ links_remembered (self (crawl_links u d ls r)) ->
  x ∈ links_remembered (self r) \/
  (exists l, In l ls /\ x = mkLink u l "href" /\
     failing (self r) (out_url_filters (self r)) l = []).
Proof.
  revert r. induction ls as [|l ls IH]; intros r; simpl; [by left|].
  intros H. apply IH in H as [H|(l'&Hin&->&Hf)].
  - apply crawl_link_remembered in H as [H|[-> Hf]]; [by left|].
    right. exists l. auto.
  - right. exists l'. split; [by right|]. split; [done|].
    destruct (crawl_link_settings u d l r) as (_&Hh&_&_&Hc&He&_&Ho).
    rewrite <- Hf, Ho. unfold failing. apply filter_ext_in_iff.
    intros f _. f_equal.
    destruct (crawl_link_visited u d l r) as (Hv&_&_).
    destruct f; unfold call, _prefix_ok, _exclude_ok, _not_visited,
      _same_host; by rewrite ?Hc, ?He, ?Hv, ?Hh.
Qed.

Lemma Crawler_init_ok root dl confine exclude lk fs c :
  Crawler_init root dl confine exclude lk fs = Ok c ->
  exists h, urlparse_hostname root = Ok h /\
    c = mkCrawler root h dl lk confine exclude ∅ ∅ ∅ ∅ 0%nat 0%nat
          [f_prefix_ok; f_exclude_ok; f_not_visited; f_same_host]
          (if fs then [f_prefix_ok; f_same_host] else []).
Proof.
  unfold Crawler_init.
  destruct (urlparse_hostname root) as [h|e]; simpl; [|done].
  intros [= <-]. by exists h.
Qed.

Lemma same_host_true c u :
  _same_host c u = true <-> urlparse_hostname u = Ok (host c).
Proof.
  unfold _same_host. destruct (urlparse_hostname u) as [h|e].
  - rewrite bool_decide_eq_true. split; congruence.
  - split; done.
Qed.

End Pages.

(** ** Invariants of a run *)

Section Invariants.
Context {W : World}.

Lemma crawl_link_queue u d l r v k :
  (v, k) ∈ q (crawl_link u d l r) ->
  (v, k) ∈ q r \/ (v = l /\ k = d + 1).
Proof.
  unfold crawl_link.
  destruct (bool_decide (l ∉ urls_seen (self r))); simpl;
    destruct (failing _ _ _); simpl; try (by left);
    rewrite elem_of_app, list_elem_of_singleton; naive_solver.
Qed.

Lemma crawl_links_queue u d ls r v k :
  (v, k) ∈ q (crawl_links u d ls r) -> (v, k) ∈ q r \/ k = d + 1.
Proof.
  revert r. induction ls as [|l ls IH]; intros r; simpl; [by left|].
  intros H. apply IH in H as [H|H]; [|by right].
  apply crawl_link_queue in H. naive_solver.
Qed.

Lemma followed_inv_step r : followed_inv r -> followed_inv (crawl_step r).
Proof.
  intros (Hf & Hv & Hnd & Hn).
  destruct (q r) as [|[u d] rest] eqn:Hq.
  { by rewrite crawl_step_nil. }
  destruct (crawl_step_cases _ _ _ _ Hq) as [->|(_ & Hpass & ->)]; [done|].
  unfold followed_inv.
  destruct (crawl_links_visited u d (links_or_nil (self r) u)
    (mkRun (add_visited (self r) u) rest (EvFetch u d :: trace r)))
    as (-> & -> & ->).
  destruct (crawl_links_settings u d (links_or_nil (self r) u)
    (mkRun (add_visited (self r) u) rest (EvFetch u d :: trace r)))
    as (_&_&_&_&_&_&->&_).
  simpl. split; [done|].
  assert (u ∉ fetched (trace r)) as Hfresh.
  { apply failing_nil with (f := f_not_visited) in Hpass; [|done].
    simpl in Hpass. unfold _not_visited in Hpass.
    apply bool_decide_eq_true in Hpass. rewrite Hv in Hpass. set_solver. }
  repeat split.
  - by rewrite Hv.
  - by constructor.
  - by rewrite Hn.
Qed.

Lemma depth_inv_step r : depth_inv r -> depth_inv (crawl_step r).
Proof.
  intros (Hq0 & Hv).
  destruct (q r) as [|[u d] rest] eqn:Hq.
  { rewrite crawl_step_nil by done. split; [by rewrite Hq|done]. }
  assert (0 <= d) as Hd0 by (apply (Hq0 u); left).
  assert (forall v k, (v, k) ∈ rest -> 0 <= k) as Hrest.
  { intros v k H. apply (Hq0 v). by right. }
  destruct (crawl_step_cases _ _ _ _ Hq) as [->|(Hd & _ & ->)]; [done|].
  set (r1 := mkRun (add_visited (self r) u) rest (EvFetch u d :: trace r)).
  split.
  - intros v k H. apply crawl_links_queue in H as [H| ->]; [|lia].
    by apply (Hrest v).
  - intros v.
    destruct (crawl_links_visited u d (links_or_nil (self r) u) r1)
      as (-> & _ & _).
    destruct (crawl_links_settings u d (links_or_nil (self r) u) r1)
      as (_&_&->&_).
    simpl. intros H.
    assert (exists k, EvFetch v k ∈ trace r1 /\ 0 <= k <= depth_limit (self r))
      as (k & Hk & Hle).
    { apply elem_of_union in H as [H|H].
      - apply elem_of_singleton in H as ->. exists d. split; [left|lia].
      - destruct (Hv v H) as (k & Hk & Hle). exists k. split; [by right|done]. }
    exists k. split; [|done].
    by apply crawl_links_fetch_events.
Qed.

Lemma host_inv_step r : host_inv r -> host_inv (crawl_step r).
Proof.
  intros (Hf & Hl).
  destruct (q r) as [|[u d] rest] eqn:Hq.
  { by rewrite crawl_step_nil. }
  destruct (crawl_step_cases _ _ _ _ Hq) as [->|(_ & _ & ->)]; [done|].
  set (r1 := mkRun (add_visited (self r) u) rest (EvFetch u d :: trace r)).
  destruct (crawl_links_settings u d (links_or_nil (self r) u) r1)
    as (_&Hh&_&_&_&_&_&Ho).
  split; [by rewrite Ho|].
  intros l Hin.
  assert (_same_host (self r) (dst l) = true) as Hs.
  { apply crawl_links_remembered in Hin as [Hin|(l' & _ & -> & Hpass)].
    - by apply Hl.
    - by apply failing_nil with (f := f_same_host) in Hpass. }
  apply same_host_true in Hs. apply same_host_true. by rewrite Hh.
Qed.

Lemma followed_inv_start root dl confine exclude lk fs c :
  Crawler_init root dl confine exclude lk fs = Ok c -> followed_inv (start c).
Proof.
  intros H. apply Crawler_init_ok in H as (h & _ & ->).
  repeat split; simpl; [tauto | constructor].
Qed.

Lemma depth_inv_start root dl confine exclude lk fs c :
  Crawler_init root dl confine exclude lk fs = Ok c -> depth_inv (start c).
Proof.
  intros H. apply Crawler_init_ok in H as (h & _ & ->).
  split; simpl.
  - intros u d Hin. apply list_elem_of_singleton in Hin. by injection Hin as _ <-.
  - set_solver.
Qed.

Lemma host_inv_start root dl confine exclude lk c :
  Crawler_init root dl confine exclude lk true = Ok c -> host_inv (start c).
Proof.
  intros H. apply Crawler_init_ok in H as (h & _ & ->).
  split; simpl; [tauto | set_solver].
Qed.

(** C2. When [crawl] has returned (the queue is empty), the number of
    elements of [visited_links] is [num_followed], and no URL was
    requested twice: the requested URLs, in the order of the requests,
    have no repetition and are exactly the elements of [visited_links]. *)
Theorem visited_links_count_is_num_followed
    root dl confine exclude lk fs c :
  Crawler_init root dl confine exclude lk fs = Ok c ->
  q (crawl c) = [] /\
  size (visited_links (self (crawl c))) = num_followed (self (crawl c)) /\
  NoDup (fetched (trace (crawl c))) /\
  visited_links (self (crawl c)) = list_to_set (fetched (trace (crawl c))).
Proof.
  intros Hc. split; [apply crawl_terminates|].
  assert (followed_inv (crawl c)) as (_ & Hv & Hnd & Hn).
  { apply crawl_invariant; [by eapply followed_inv_start|].
    apply followed_inv_step. }
  repeat split; [|done..].
  rewrite Hv, Hn. by apply size_list_to_set.
Qed.

(** C3. An item that leaves the queue with a depth above [depth_limit]
    is dropped: the crawler is unchanged and nothing is requested.
    Hence, when [crawl] has returned, every URL in [visited_links] was
    requested for an item of depth between 0 and [depth_limit]. *)
Theorem too_deep_items_are_discarded root dl confine exclude lk fs c :
  Crawler_init root dl confine exclude lk fs = Ok c ->
  (forall r this_url depth rest,
     q r = (this_url, depth) :: rest ->
     depth > depth_limit (self r) ->
     crawl_step r = mkRun (self r) rest (trace r)) /\
  (forall u, u ∈ visited_links (self (crawl c)) ->
     exists d, EvFetch u d ∈ trace (crawl c) /\ 0 <= d <= dl).
Proof.
  intros Hc. split.
  - intros r u d rest Hq Hd. apply (crawl_step_drop _ _ _ _ Hq). by left.
  - assert (depth_inv (crawl c)) as (_ & Hv).
    { apply crawl_invariant; [by eapply depth_inv_start|].
      apply depth_inv_step. }
    intros u Hu. destruct (Hv u Hu) as (d & Hd & Hle).
    exists d. split; [done|].
    destruct (crawl_settings c) as (_&_&Hdl&_). rewrite Hdl in Hle.
    apply Crawler_init_ok in Hc as (h & _ & ->). exact Hle.
Qed.

(** C9. With the report filters in place ([filter_seen] true), when
    [crawl] has returned every Link in [links_remembered] has a
    destination whose parsed hostname is the hostname of the root; a URL
    that fails to parse does not pass [_same_host] and is the
    destination of no remembered Link. *)
Theorem remembered_links_stay_on_root_host
    root dl confine exclude lk c :
  Crawler_init root dl confine exclude lk true = Ok c ->
  urlparse_hostname root = Ok (host c) /\
  (forall l, l ∈ links_remembered (self (crawl c)) ->
     urlparse_hostname (dst l) = Ok (host c)) /\
  (forall u e, urlparse_hostname u = Raise e ->
     _same_host c u = false /\
     forall l, l ∈ links_remembered (self (crawl c)) -> dst l <> u).
Proof.
  intros Hc.
  assert (host_inv (crawl c)) as (_ & Hl).
  { apply crawl_invariant; [by eapply host_inv_start|].
    apply host_inv_step. }
  assert (forall l, l ∈ links_remembered (self (crawl c)) ->
            urlparse_hostname (dst l) = Ok (host c)) as Hdst.
  { intros l Hin. apply Hl, same_host_true in Hin.
    destruct (crawl_settings c) as (_&Hh&_). by rewrite <- Hh. }
  split; [|split; [done|]].
  - apply Crawler_init_ok in Hc as (h & Hh & ->). done.
  - intros u e Hu. split.
    + unfold _same_host. by rewrite Hu.
    + intros l Hin Heq. apply Hdst in Hin. congruence.
Qed.

End Invariants.

Lemma visited_links_count_witness :
  @Crawler_init web_scenario_a "http://root.example" 30 None [] true true
    = Ok crawler_a /\
  q (@crawl web_scenario_a crawler_a) = [] /\
  size (visited_links (self (@crawl web_scenario_a crawler_a)))
    = num_followed (self (@crawl web_scenario_a crawler_a)) /\
  NoDup (fetched (trace (@crawl web_scenario_a crawler_a))) /\
  visited_links (self (@crawl web_scenario_a crawler_a))
    = list_to_set (fetched (trace (@crawl web_scenario_a crawler_a))).
Proof.
  split; [reflexivity|].
  apply (@visited_links_count_is_num_followed web_scenario_a
           "http://root.example" 30 None [] true true crawler_a).
  reflexivity.
Defined.

Lemma too_deep_items_witness :
  @Crawler_init web_scenario_a "http://root.example" 30 None [] true true
    = Ok crawler_a /\
  (forall r this_url depth rest,
     q r = (this_url, depth) :: rest ->
     depth > depth_limit (self r) ->
     @crawl_step web_scenario_a r = mkRun (self r) rest (trace r)) /\
  (forall u, u ∈ visited_links (self (@crawl web_scenario_a crawler_a)) ->
     exists d, EvFetch u d ∈ trace (@crawl web_scenario_a crawler_a)
               /\ 0 <= d <= 30).
Proof.
  split; [reflexivity|].
  apply (@too_deep_items_are_discarded web_scenario_a
           "http://root.example" 30 None [] true true crawler_a).
  reflexivity.
Defined.

Lemma remembered_links_host_witness :
  @Crawler_init web_scenario_a "http://root.example" 30 None [] true true
    = Ok crawler_a /\
  @urlparse_hostname web_scenario_a "http://root.example"
    = Ok (host crawler_a) /\
  (forall l, l ∈ links_remembered (self (@crawl web_scenario_a crawler_a)) ->
     @urlparse_hostname web_scenario_a (dst l) = Ok (host crawler_a)) /\
  (forall u e, @urlparse_hostname web_scenario_a u = Raise e ->
     @_same_host web_scenario_a crawler_a u = false /\
     forall l, l ∈ links_remembered (self (@crawl web_scenario_a crawler_a)) ->
       dst l <> u).
Proof.
  split; [reflexivity|].
  apply (@remembered_links_stay_on_root_host web_scenario_a
           "http://root.example" 30 None [] true crawler_a).
  reflexivity.
Defined.

(** ** The frontier *)

Section Frontier.
Context {W : World}.

Lemma crawl_link_puts u d l r :
  ((l ∉ urls_seen (self r)) /\
   puts (trace (crawl_link u d l r)) = l :: puts (trace r) /\
   urls_seen (self (crawl_link u d l r)) = {[l]} ∪ urls_seen (self r)) \/
  ((l ∈ urls_seen (self r)) /\
   puts (trace (crawl_link u d l r)) = puts (trace r) /\
   urls_seen (self (crawl_link u d l r)) = urls_seen (self r)).
Proof.
  unfold crawl_link. case_bool_decide as H; [left | right]; cbn [self].
  - split; [done|]. destruct (failing _ _ _); simpl; done.
  - split; [done|]. destruct (failing _ _ _); simpl; done.
Qed.

Lemma put_inv_link u d l r : put_inv r -> put_inv (crawl_link u d l r).
Proof.
  intros (ps & Hp & Hnd & Hs). unfold put_inv.
  destruct (crawl_link_settings u d l r) as (-> & _).
  destruct (crawl_link_puts u d l r) as [(Hl & -> & ->)|(Hl & -> & ->)].
  - exists (l :: ps). rewrite Hp. repeat split.
    + constructor; [|done]. rewrite Hs in Hl. set_solver.
    + by rewrite Hs.
  - by exists ps.
Qed.

Lemma put_inv_links u d ls r : put_inv r -> put_inv (crawl_links u d ls r).
Proof.
  revert r. induction ls as [|l ls IH]; intros r H; simpl; [done|].
  by apply IH, put_inv_link.
Qed.

Lemma put_inv_step r : put_inv r -> put_inv (crawl_step r).
Proof.
  intros H. destruct (q r) as [|[u d] rest] eqn:Hq.
  { by rewrite crawl_step_nil. }
  destruct (crawl_step_cases _ _ _ _ Hq) as [->|(_ & _ & ->)]; [done|].
  apply put_inv_links. destruct H as (ps & Hp & Hnd & Hs). by exists ps.
Qed.

(** What the check against [urls_seen] does achieve: in a whole run the
    root is put at most twice and every other URL at most once. *)
Lemma puts_at_most_once_but_root c u :
  urls_seen c = ∅ ->
  (count_occ string_dec (puts (trace (crawl c))) u
   <= if decide (u = root c) then 2 else 1)%nat.
Proof.
  intros Hseen.
  assert (put_inv (crawl c)) as (ps & Hp & Hnd & _).
  { apply crawl_invariant; [|apply put_inv_step].
    exists []. simpl. rewrite Hseen. repeat split. constructor. }
  destruct (crawl_settings c) as (Hroot & _). rewrite Hroot in Hp.
  rewrite Hp, count_occ_app. simpl.
  assert (count_occ string_dec ps u <= 1)%nat as Hle.
  { apply NoDup_ListNoDup in Hnd.
    rewrite (NoDup_count_occ string_dec) in Hnd. apply Hnd. }
  destruct (string_dec (root c) u) as [->|Hne]; case_decide; try lia.
  congruence.
Qed.

End Frontier.

(** C1, at a root page that links to itself: the root is put on the queue
    when [crawl] starts and, being absent from [urls_seen], a second time
    when the link is met. *)
Theorem root_url_is_enqueued_twice :
  @Crawler_init web_self_link "http://root.example/" 30 None [] true true
    = Ok crawler_self_link /\
  rev (trace (@crawl web_self_link crawler_self_link))
    = [EvPut "http://root.example/" 0; EvFetch "http://root.example/" 0;
       EvPut "http://root.example/" 1] /\
  count_occ string_dec (puts (trace (@crawl web_self_link crawler_self_link)))
    "http://root.example/" = 2%nat.
Proof. vm_compute. repeat split. Qed.

(** ** A page that is not HTML *)

(** C7. When the item at the head of the queue is to be followed and the
    answer to its request has a content type other than [text/html],
    [fetch] stops with an exception ([NameError], the class named in its
    [raise] statement being undefined) that [crawl] catches: the URL is
    marked as visited and [num_followed] grows by one, nothing is put on
    the queue, nothing is counted or remembered, and the loop goes on with
    the rest of the queue. *)
Theorem non_html_page_counts_but_adds_nothing
    {W : World} (r : run) this_url depth rest mime hrefs :
  q r = (this_url, depth) :: rest ->
  depth <= depth_limit (self r) ->
  failing (self r) (pre_visit_filters (self r)) this_url = [] ->
  urlopen this_url = Response mime hrefs ->
  mime <> "text/html" ->
  fetch (Fetcher_init this_url) = Raise NameError /\
  crawl_step r = mkRun (add_visited (self r) this_url) rest
                       (EvFetch this_url depth :: trace r) /\
  num_followed (self (crawl_step r)) = S (num_followed (self r)) /\
  num_links (self (crawl_step r)) = num_links (self r) /\
  links_remembered (self (crawl_step r)) = links_remembered (self r) /\
  urls_remembered (self (crawl_step r)) = urls_remembered (self r) /\
  urls_seen (self (crawl_step r)) = urls_seen (self r) /\
  q (crawl_step r) = rest /\
  forall fuel, crawl_loop (S fuel) r = crawl_loop fuel (crawl_step r).
Proof.
  intros Hq Hd Hpass Hopen Hmime.
  assert (fetch (Fetcher_init this_url) = Raise NameError) as Hfetch.
  { unfold fetch. simpl. rewrite Hopen.
    destruct (String.eqb mime "text/html") eqn:E; [|done].
    by apply String.eqb_eq in E. }
  assert (crawl_step r = mkRun (add_visited (self r) this_url) rest
                           (EvFetch this_url depth :: trace r)) as Hstep.
  { rewrite (crawl_step_fetch _ _ _ _ Hq Hd Hpass).
    unfold links_or_nil, page_links. by rewrite Hfetch. }
  split; [exact Hfetch|]. split; [exact Hstep|].
  repeat (split; [rewrite Hstep; reflexivity|]).
  intros fuel. apply crawl_loop_unfold. by rewrite Hq.
Qed.

Lemma non_html_page_witness :
  @fetch web_scenario_d (Fetcher_init "http://root.example/doc.pdf")
    = Raise NameError /\
  @crawl_step web_scenario_d run_d
    = mkRun (add_visited crawler_d "http://root.example/doc.pdf") []
            [EvFetch "http://root.example/doc.pdf" 1] /\
  num_followed (self (@crawl_step web_scenario_d run_d)) = 2%nat /\
  num_links (self (@crawl_step web_scenario_d run_d)) = 0%nat.
Proof.
  destruct (@non_html_page_counts_but_adds_nothing web_scenario_d run_d
              "http://root.example/doc.pdf" 1 [] "application/pdf" [])
    as (H1 & H2 & H3 & H4 & _).
  - reflexivity.
  - simpl. lia.
  - vm_compute. reflexivity.
  - reflexivity.
  - discriminate.
  - exact (conj H1 (conj H2 (conj H3 H4))).
Defined.

(** ** The [locked] parameter *)

Section Locked.
Context {W : World}.

Lemma crawl_link_relock b u d l r :
  crawl_link u d l (relock b r) = relock b (crawl_link u d l r).
Proof.
  unfold crawl_link, relock. cbn [self q trace].
  change (urls_seen (set_locked b (self r))) with (urls_seen (self r)).
  destruct (bool_decide (l ∉ urls_seen (self r))); cbn [self q trace].
  - change (failing (add_seen (set_locked b (self r)) l)
              (out_url_filters (add_seen (set_locked b (self r)) l)) l)
      with (failing (add_seen (self r) l)
              (out_url_filters (add_seen (self r) l)) l).
    destruct (failing _ _ _); reflexivity.
  - change (failing (set_locked b (self r))
              (out_url_filters (set_locked b (self r))) l)
      with (failing (self r) (out_url_filters (self r)) l).
    destruct (failing _ _ _); reflexivity.
Qed.

Lemma crawl_links_relock b u d ls r :
  crawl_links u d ls (relock b r) = relock b (crawl_links u d ls r).
Proof.
  revert r. induction ls as [|l ls IH]; intros r; simpl; [done|].
  by rewrite crawl_link_relock, IH.
Qed.

Lemma crawl_step_relock b r :
  crawl_step (relock b r) = relock b (crawl_step r).
Proof.
  destruct (q r) as [|[u d] rest] eqn:Hq.
  { rewrite !crawl_step_nil; done. }
  assert (q (relock b r) = (u, d) :: rest) as Hq' by done.
  destruct (crawl_step_cases _ _ _ _ Hq) as [Hs|(Hd & Hpass & Hs)];
    rewrite Hs.
  - destruct (crawl_step_cases _ _ _ _ Hq') as [Hs'|(Hd' & Hpass' & Hs')];
      [by rewrite Hs'|].
    exfalso.
    change (failing (self r) (pre_visit_filters (self r)) u = [])
      in Hpass'.
    change (d <= depth_limit (self r)) in Hd'.
    rewrite (crawl_step_fetch _ _ _ _ Hq Hd' Hpass') in Hs.
    apply (f_equal (fun x => fetched (trace x))) in Hs.
    destruct (crawl_links_visited u d (links_or_nil (self r) u)
      (mkRun (add_visited (self r) u) rest (EvFetch u d :: trace r)))
      as (_ & _ & Hf).
    rewrite Hf in Hs. simpl in Hs.
    apply (f_equal length) in Hs. simpl in Hs. lia.
  - rewrite (crawl_step_fetch _ _ _ _ Hq' Hd Hpass).
    rewrite <- crawl_links_relock. reflexivity.
Qed.

Lemma crawl_loop_relock b fuel r :
  crawl_loop fuel (relock b r) = relock b (crawl_loop fuel r).
Proof.
  revert r. induction fuel as [|n IH]; intros r; simpl; [done|].
  destruct (q r); [done|]. by rewrite crawl_step_relock, IH.
Qed.

Lemma crawl_set_locked b c : crawl (set_locked b c) = relock b (crawl c).
Proof.
  unfold crawl.
  rewrite (queue_cost_self (set_locked b c) c) by done.
  apply (crawl_loop_relock b _ (start c)).
Qed.

(** C10. Two crawlers built with the same arguments except [locked]
    end their crawls with the same sets and counters, after the same
    puts and requests; [_same_host] is among the follow filters of both,
    and among the report filters of both whenever [filter_seen] is
    true. *)
Theorem locked_parameter_has_no_effect
    root dl confine exclude fs lk1 lk2 c1 c2 :
  Crawler_init root dl confine exclude lk1 fs = Ok c1 ->
  Crawler_init root dl confine exclude lk2 fs = Ok c2 ->
  urls_seen (self (crawl c1)) = urls_seen (self (crawl c2)) /\
  visited_links (self (crawl c1)) = visited_links (self (crawl c2)) /\
  urls_remembered (self (crawl c1)) = urls_remembered (self (crawl c2)) /\
  links_remembered (self (crawl c1)) = links_remembered (self (crawl c2)) /\
  num_links (self (crawl c1)) = num_links (self (crawl c2)) /\
  num_followed (self (crawl c1)) = num_followed (self (crawl c2)) /\
  trace (crawl c1) = trace (crawl c2) /\
  In f_same_host (pre_visit_filters c1) /\
  In f_same_host (pre_visit_filters c2) /\
  (fs = true -> In f_same_host (out_url_filters c1) /\
                In f_same_host (out_url_filters c2)).
Proof.
  intros H1 H2.
  apply Crawler_init_ok in H1 as (h1 & Hh1 & ->).
  apply Crawler_init_ok in H2 as (h2 & Hh2 & ->).
  assert (h2 = h1) as -> by congruence.
  match goal with
  | |- context [crawl ?c] =>
      match c with
      | context [lk2] => change c with (set_locked lk2
          (mkCrawler root h1 dl lk1 confine exclude ∅ ∅ ∅ ∅ 0%nat 0%nat
             [f_prefix_ok; f_exclude_ok; f_not_visited; f_same_host]
             (if fs then [f_prefix_ok; f_same_host] else [])))
      end
  end.
  rewrite crawl_set_locked.
  do 7 (split; [reflexivity|]).
  split; [simpl; tauto|]. split; [simpl; tauto|].
  intros ->. simpl. tauto.
Qed.

End Locked.

Lemma locked_parameter_witness :
  urls_seen (self (@crawl web_scenario_a crawler_a))
    = urls_seen (self (@crawl web_scenario_a (set_locked false crawler_a))) /\
  num_links (self (@crawl web_scenario_a crawler_a))
    = num_links (self (@crawl web_scenario_a (set_locked false crawler_a))) /\
  num_followed (self (@crawl web_scenario_a crawler_a))
    = num_followed (self (@crawl web_scenario_a (set_locked false crawler_a))).
Proof.
  destruct (@locked_parameter_has_no_effect web_scenario_a
              "http://root.example" 30 None [] true true false
              crawler_a (set_locked false crawler_a))
    as (H1 & _ & _ & _ & H5 & H6 & _).
  - reflexivity.
  - reflexivity.
  - exact (conj H1 (conj H5 H6)).
Defined.

(** ** Counting and remembering links *)

Section Report.
Context {W : World}.

Lemma call_settings c1 c2 f x :
  same_settings c1 c2 ->
  (f = f_not_visited -> visited_links c1 = visited_links c2) ->
  call c1 f x = call c2 f x.
Proof.
  intros (_ & Hh & _ & _ & Hc & He & _) Hv.
  destruct f; unfold call, _prefix_ok, _exclude_ok, _not_visited, _same_host;
    rewrite ?Hc, ?He, ?Hh; try done.
  by rewrite Hv.
Qed.

Lemma failing_settings c1 c2 fs x :
  same_settings c1 c2 ->
  (In f_not_visited fs -> visited_links c1 = visited_links c2) ->
  failing c1 fs x = failing c2 fs x.
Proof.
  intros Hs Hv. unfold failing. apply filter_ext_in_iff. intros f Hf.
  f_equal. apply call_settings; [done|]. intros ->. by apply Hv.
Qed.

Lemma report_ok_settings c1 c2 x :
  same_settings c1 c2 ->
  (In f_not_visited (out_url_filters c2) ->
   visited_links c1 = visited_links c2) ->
  report_ok c1 x = report_ok c2 x.
Proof.
  intros Hs Hv. unfold report_ok.
  destruct Hs as (?&?&?&?&?&?&?&Ho). rewrite Ho.
  f_equal. apply failing_settings; [by repeat split | done].
Qed.

Lemma report_ok_crawl_link u d l r x :
  report_ok (self (crawl_link u d l r)) x = report_ok (self r) x.
Proof.
  apply report_ok_settings; [apply crawl_link_settings|].
  intros _. apply crawl_link_visited.
Qed.

Lemma crawl_link_report u d l r :
  num_links (self (crawl_link u d l r))
    = (num_links (self r) + if report_ok (self r) l then 1 else 0)%nat /\
  links_remembered (self (crawl_link u d l r))
    = (if report_ok (self r) l then {[href_link u l]} else ∅)
      ∪ links_remembered (self r) /\
  urls_remembered (self (crawl_link u d l r))
    = (if report_ok (self r) l then {[l]} else ∅)
      ∪ urls_remembered (self r).
Proof.
  unfold crawl_link, report_ok.
  destruct (bool_decide (l ∉ urls_seen (self r))); cbn [self];
    [change (failing (add_seen (self r) l)
               (out_url_filters (add_seen (self r) l)) l)
       with (failing (self r) (out_url_filters (self r)) l)|];
    destruct (failing (self r) (out_url_filters (self r)) l);
    cbn [is_nil self add_remembered add_seen num_links links_remembered
         urls_remembered];
    (split; [lia|]); split; try set_solver;
    unfold href_link; case_bool_decide; set_solver.
Qed.

Lemma crawl_links_report u d ls r :
  num_links (self (crawl_links u d ls r))
    = (num_links (self r)
       + length (List.filter (report_ok (self r)) ls))%nat /\
  links_remembered (self (crawl_links u d ls r))
    = list_to_set (map (href_link u) (List.filter (report_ok (self r)) ls))
      ∪ links_remembered (self r) /\
  urls_remembered (self (crawl_links u d ls r))
    = list_to_set (List.filter (report_ok (self r)) ls)
      ∪ urls_remembered (self r).
Proof.
  revert r. induction ls as [|l ls IH]; intros r.
  { simpl. repeat split; [lia | set_solver..]. }
  cbn [crawl_links List.filter].
  destruct (IH (crawl_link u d l r)) as (-> & -> & ->).
  destruct (crawl_link_report u d l r) as (-> & -> & ->).
  rewrite (filter_ext _ _ (report_ok_crawl_link u d l r)).
  destruct (report_ok (self r) l); simpl;
    (split; [lia|]); split; set_solver.
Qed.



End Report.


(** ** The [-l] run *)

Section LinksMode.
Context {W : World}.

Lemma getLinks_lines_numbered urls j :
  getLinks_lines urls j
  = numbered_from j (List.filter (Str.has_substring "http") urls).
Proof.
  revert j. induction urls as [|u urls IH]; intros j; [done|].
  cbn [getLinks_lines List.filter].
  destruct (Str.has_substring "http" u); [|apply IH].
  cbn [numbered_from]. by rewrite IH.
Qed.

Lemma numbered_from_lookup j urls i url :
  urls !! i = Some url ->
  numbered_from j urls !! i = Some (Str.of_nat (j + i) +:+ ". " +:+ url).
Proof.
  revert j i. induction urls as [|u urls IH]; intros j i; [done|].
  destruct i as [|i]; simpl.
  - intros [= ->]. by rewrite Nat.add_0_r.
  - intros H. rewrite (IH (S j) i H). do 3 f_equal. lia.
Qed.


End LinksMode.



(** ** The URL normalizer *)

Section StrFacts.

#[local] Arguments String.append !_ _ / : simpl nomatch.



Lemma contains_app c a b :
  Str.contains c (a +:+ b) = Str.contains c a || Str.contains c b.
Proof.
  induction a as [|x a IH]; simpl; [done|].
  rewrite IH. by rewrite orb_assoc.
Qed.






Lemma partition_spec c s b a :
  Str.partition c s = Some (b, a) ->
  s = b +:+ String c a /\ Str.contains c b = false.
Proof.
  revert b a. induction s as [|x s IH]; intros b a; simpl; [done|].
  destruct (Ascii.eqb x c) eqn:E.
  - intros [= <- <-]. apply Ascii.eqb_eq in E as ->. done.
  - destruct (Str.partition c s) as [[b' a']|]; [|done].
    intros [= <- <-]. destruct (IH b' a' eq_refl) as [-> Hb].
    simpl. by rewrite E, Hb.
Qed.

Lemma partition_none c s :
  Str.partition c s = None -> Str.contains c s = false.
Proof.
  induction s as [|x s IH]; simpl; [done|].
  destruct (Ascii.eqb x c); [done|].
  destruct (Str.partition c s) as [[b a]|]; [done|]. auto.
Qed.

Lemma rpartition_spec c s b a :
  Str.rpartition c s = Some (b, a) -> s = b +:+ String c a.
Proof.
  revert b a. induction s as [|x s IH]; intros b a; simpl; [done|].
  destruct (Str.rpartition c s) as [[b' a']|].
  - intros [= <- <-]. by rewrite (IH b' a' eq_refl).
  - destruct (Ascii.eqb x c) eqn:E; [|done].
    intros [= <- <-]. by apply Ascii.eqb_eq in E as ->.
Qed.


Lemma span_fst_free p s c :
  p c = true -> Str.contains c (fst (Str.span p s)) = false.
Proof.
  intros Hc. induction s as [|x s IH]; simpl; [done|].
  destruct (p x) eqn:Hx; [done|].
  destruct (Str.span p s) as [b r]. simpl in *. rewrite IH.
  destruct (Ascii.eqb x c) eqn:E; [|done].
  apply Ascii.eqb_eq in E as ->. congruence.
Qed.

Lemma lower_scheme_char x :
  scheme_chars x = true -> Ascii.eqb (Str.lower_char x) "#" = false.
Proof.
  destruct x as [[] [] [] [] [] [] [] []]; vm_compute; congruence.
Qed.

Lemma lower_scheme_no_hash b :
  Str.forallb scheme_chars b = true -> Str.contains "#" (Str.lower b) = false.
Proof.
  induction b as [|x b IH]; simpl; [done|].
  intros H. apply andb_prop in H as [Hx Hb].
  by rewrite (lower_scheme_char x Hx), IH.
Qed.

End StrFacts.

Section Normalizer.
Context {W : World}.

#[local] Arguments String.append !_ _ / : simpl nomatch.








Lemma urldefrag_unfold u :
  urldefrag u = if Str.contains "#" u then reserialize u else Ok u.
Proof. reflexivity. Qed.


(** No component that [urlsplit] finds before the fragment holds a [#]. *)
Lemma split_scheme_no_hash x :
  Str.contains "#" (fst (split_scheme x "")) = false.
Proof.
  unfold split_scheme. destruct (Str.partition ":" x) as [[b a]|]; [|done].
  destruct (negb (Str.is_empty b)) ; simpl; [|done].
  destruct (match x with String c _ => _ | EmptyString => false end);
    simpl; [|done].
  destruct (Str.forallb scheme_chars b) eqn:E; simpl; [|done].
  by apply lower_scheme_no_hash.
Qed.

Lemma split_netloc_no_hash x n r :
  split_netloc x = Ok (n, r) -> Str.contains "#" n = false.
Proof.
  unfold split_netloc, _splitnetloc.
  destruct (String.eqb (Str.take2 x) "//"); [|by intros [= <- _]].
  pose proof (span_fst_free
    (fun c => Ascii.eqb c "/" || Ascii.eqb c "?" || Ascii.eqb c "#")
    (Str.drop2 x) "#" eq_refl) as H.
  destruct (Str.span _ (Str.drop2 x)) as [n' r']. simpl in H.
  destruct (_ || _); [done|].
  destruct (_ && _); [destruct (_check_bracketed_netloc n')|]; simpl;
    try done; by intros [= <- _].
Qed.

Lemma split_at_parts c d s a b :
  split_at c s = (a, b) -> Str.contains d s = false ->
  Str.contains d a = false /\ Str.contains d b = false.
Proof.
  unfold split_at. destruct (Str.partition c s) as [[a' b']|] eqn:E.
  - intros [= <- <-] Hs. apply partition_spec in E as [-> _].
    rewrite contains_app in Hs. simpl in Hs.
    apply orb_false_elim in Hs as [Ha Hb].
    apply orb_false_elim in Hb as [_ Hb]. done.
  - by intros [= <- <-] Hs.
Qed.

Lemma split_at_fst_free c s : Str.contains c (fst (split_at c s)) = false.
Proof.
  unfold split_at. destruct (Str.partition c s) as [[a b]|] eqn:E; simpl.
  - by apply partition_spec in E as [_ ?].
  - by apply partition_none.
Qed.

Lemma urlsplit_no_hash u r :
  urlsplit u "" = Ok r ->
  Str.contains "#" (s_scheme r) = false /\
  Str.contains "#" (s_netloc r) = false /\
  Str.contains "#" (s_path r) = false /\
  Str.contains "#" (s_query r) = false.
Proof.
  unfold urlsplit.
  set (x := remove_unsafe_bytes _).
  change (remove_unsafe_bytes (Str.strip _WHATWG_C0_CONTROL_OR_SPACE ""))
    with "".
  pose proof (split_scheme_no_hash x) as Hsc.
  destruct (split_scheme x "") as [sc rest]. simpl in Hsc.
  destruct (split_netloc rest) as [[n r0]|e] eqn:En; simpl; [|done].
  apply split_netloc_no_hash in En.
  pose proof (split_at_fst_free "#" r0) as Hp.
  destruct (split_at "#" r0) as [p1 f1]. simpl in Hp.
  destruct (split_at "?" p1) as [p q0] eqn:Eq.
  destruct (split_at_parts _ "#" _ _ _ Eq Hp) as [Hpp Hq].
  destruct (_checknetloc n); simpl; [|done].
  by intros [= <-].
Qed.

Lemma contains_cons c x s :
  Str.contains c (String x s) = Ascii.eqb x c || Str.contains c s.
Proof. reflexivity. Qed.

Ltac contains_parts H :=
  rewrite ?contains_app, ?contains_cons in H;
  rewrite ?contains_app, ?contains_cons in H;
  repeat match type of H with
         | orb _ _ = false =>
             let H1 := fresh in
             apply orb_false_elim in H as [H1 H];
             try contains_parts H1
         end;
  rewrite ?contains_app, ?contains_cons.

Lemma _splitparams_parts d s a b :
  _splitparams s = (a, b) -> Str.contains d s = false ->
  Str.contains d a = false /\ Str.contains d b = false.
Proof.
  unfold _splitparams.
  destruct (Str.rpartition "/" s) as [[dir last]|] eqn:E.
  - apply rpartition_spec in E as ->.
    destruct (Str.partition ";" last) as [[a' b']|] eqn:E2.
    + apply partition_spec in E2 as [-> _].
      intros [= <- <-] H. contains_parts H.
      repeat match goal with
             | Hx : ?x = false |- context [?x] => rewrite Hx
             end. done.
    + by intros [= <- <-] H.
  - destruct (Str.partition ";" s) as [[a' b']|] eqn:E2.
    + apply partition_spec in E2 as [-> _].
      intros [= <- <-] H. contains_parts H.
      repeat match goal with
             | Hx : ?x = false |- context [?x] => rewrite Hx
             end. done.
    + by intros [= <- <-].
Qed.

Ltac destruct_inner_if :=
  repeat match goal with
         | |- context [if ?b then _ else _] =>
             lazymatch b with
             | context [if _ then _ else _] => fail
             | _ => destruct b
             end
         end.

Lemma urlunsplit_no_hash sc n p qy :
  Str.contains "#" sc = false -> Str.contains "#" n = false ->
  Str.contains "#" p = false -> Str.contains "#" qy = false ->
  Str.contains "#" (urlunsplit sc n p qy "") = false.
Proof.
  intros Hsc Hn Hp Hq. unfold urlunsplit. cbv zeta.
  change (negb (Str.is_empty "")) with false. cbv iota.
  destruct_inner_if;
    rewrite ?contains_app, ?contains_cons, ?contains_app, ?contains_cons,
            ?contains_app, ?contains_cons;
    by rewrite ?Hsc, ?Hn, ?Hp, ?Hq.
Qed.

Lemma urlunparse_no_hash sc n p pa qy :
  Str.contains "#" sc = false -> Str.contains "#" n = false ->
  Str.contains "#" p = false -> Str.contains "#" pa = false ->
  Str.contains "#" qy = false ->
  Str.contains "#" (urlunparse sc n p pa qy "") = false.
Proof.
  intros Hsc Hn Hp Hpa Hq. unfold urlunparse. cbv zeta.
  apply urlunsplit_no_hash; try done.
  destruct (negb (Str.is_empty pa)); [|done].
  rewrite !contains_app. by rewrite Hp, Hpa.
Qed.

Lemma reserialize_no_hash u v :
  reserialize u = Ok v -> Str.contains "#" v = false.
Proof.
  unfold reserialize, urlparse.
  destruct (urlsplit u "") as [r|e] eqn:E; cbn [bind]; [|done].
  apply urlsplit_no_hash in E as (Hsc & Hn & Hp & Hq).
  destruct (str_in (s_scheme r) uses_params && Str.contains ";" (s_path r)).
  - destruct (_splitparams (s_path r)) as [a b] eqn:Es.
    cbn [bind scheme netloc path params query].
    destruct (_splitparams_parts "#" _ _ _ Es Hp) as [Ha Hb].
    intros [= <-]. by apply urlunparse_no_hash.
  - cbn [bind scheme netloc path params query].
    intros [= <-]. by apply urlunparse_no_hash.
Qed.


End Normalizer.



(** ** Scenario A *)

Section ScenarioA.
Context {W : World}.

Lemma crawl_link_put u d l r :
  l ∉ urls_seen (self r) ->
  crawl_link u d l r =
    if report_ok (self r) l
    then mkRun (add_remembered (add_seen (self r) l) u l)
               (q r ++ [(l, d + 1)]) (EvPut l (d + 1) :: trace r)
    else mkRun (add_seen (self r) l)
               (q r ++ [(l, d + 1)]) (EvPut l (d + 1) :: trace r).
Proof.
  intros H. unfold crawl_link, report_ok. rewrite bool_decide_true by done.
  cbn [self q trace].
  change (failing (add_seen (self r) l)
            (out_url_filters (add_seen (self r) l)) l)
    with (failing (self r) (out_url_filters (self r)) l).
  by destruct (failing (self r) (out_url_filters (self r)) l).
Qed.

Lemma same_host_settings c1 c2 x :
  host c1 = host c2 -> _same_host c1 x = _same_host c2 x.
Proof. intros H. unfold _same_host. by rewrite H. Qed.

(** With the default settings a link is reported when it is on the host
    of the root, and an item is followed when it is on that host and was
    not visited. *)
Lemma default_report_ok c x :
  out_url_filters c = [f_prefix_ok; f_same_host] ->
  confine_prefix c = None ->
  report_ok c x = _same_host c x.
Proof.
  intros Ho Hc. unfold report_ok, failing. rewrite Ho.
  cbn [List.filter call]. unfold _prefix_ok. rewrite Hc. cbn [negb].
  by destruct (_same_host c x).
Qed.

Lemma default_follow_ok c x :
  pre_visit_filters c = [f_prefix_ok; f_exclude_ok; f_not_visited; f_same_host] ->
  confine_prefix c = None -> exclude_prefixes c = [] ->
  x ∉ visited_links c -> _same_host c x = true ->
  failing c (pre_visit_filters c) x = [].
Proof.
  intros Hp Hc He Hv Hs. apply failing_nil. rewrite Hp.
  intros f [<-|[<-|[<-|[<-|[]]]]]; cbn [call].
  - unfold _prefix_ok. by rewrite Hc.
  - unfold _exclude_ok. by rewrite He.
  - unfold _not_visited. by apply bool_decide_eq_true.
  - done.
Qed.

Lemma default_follow_off_host c x :
  In f_same_host (pre_visit_filters c) -> _same_host c x = false ->
  failing c (pre_visit_filters c) x <> [].
Proof.
  intros Hin Hs Hnil. rewrite failing_nil in Hnil.
  specialize (Hnil f_same_host Hin). cbn [call] in Hnil. congruence.
Qed.

Lemma urlparse_other_b s :
  urlparse "http://other.example/b" s
  = Ok (mkParse "http" "other.example" "/b" "" "" "").
Proof. vm_compute. reflexivity. Qed.

Lemma urljoin_other_b base :
  (exists b, urlparse base "" = Ok b) ->
  urljoin base "http://other.example/b" = Ok "http://other.example/b".
Proof.
  intros [b Hb]. unfold urljoin.
  destruct (Str.is_empty base); [done|]. cbn [Str.is_empty].
  rewrite Hb. cbn [bind]. rewrite urlparse_other_b. cbn [bind scheme netloc].
  destruct (String.eqb "http" (scheme b)); reflexivity.
Qed.

Lemma str_in_no_hash s l :
  str_in s l = true -> Forall (fun x => Str.contains "#" x = false) l ->
  Str.contains "#" s = false.
Proof.
  unfold str_in. intros H Hall. apply existsb_exists in H as (x & Hx & Heq).
  apply String.eqb_eq in Heq as ->.
  rewrite Forall_forall in Hall. apply Hall. by apply list_elem_of_In.
Qed.

Lemma uses_relative_no_hash s :
  str_in s uses_relative = true -> Str.contains "#" s = false.
Proof.
  intros H. apply (str_in_no_hash _ _ H).
  unfold uses_relative. repeat constructor.
Qed.

Lemma urlparse_no_hash u b :
  urlparse u "" = Ok b -> Str.contains "#" (netloc b) = false.
Proof.
  unfold urlparse. destruct (urlsplit u "") as [r|e] eqn:E; [|done].
  apply urlsplit_no_hash in E as (_ & Hn & _). cbn [bind].
  destruct (_ && _); [destruct (_splitparams _)|]; by intros [= <-].
Qed.

Lemma urlparse_slash_a s :
  urlparse "/a" s
  = Ok (mkParse
          (remove_unsafe_bytes (Str.strip _WHATWG_C0_CONTROL_OR_SPACE s))
          "" "/a" "" "" "").
Proof.
  unfold urlparse, urlsplit.
  change (remove_unsafe_bytes (Str.lstrip _WHATWG_C0_CONTROL_OR_SPACE "/a"))
    with "/a".
  change (split_scheme "/a" ?x) with (x, "/a").
  cbv beta iota.
  change (split_netloc "/a") with (@Ok (string * string) ("", "/a")).
  cbn [bind].
  change (split_at "#" "/a") with ("/a", "").
  cbv beta iota.
  change (split_at "?" "/a") with ("/a", "").
  cbv beta iota.
  change (_checknetloc "") with (Ok tt).
  cbn [bind s_scheme s_netloc s_path s_query s_fragment].
  change (Str.contains ";" "/a") with false.
  rewrite andb_false_r. reflexivity.
Qed.

(** The anchor [/a] resolves to a URL without a fragment. *)
Lemma urljoin_slash_a_no_hash base a :
  (exists b, urlparse base "" = Ok b) ->
  urljoin base "/a" = Ok a -> Str.contains "#" a = false.
Proof.
  intros [b Hb]. unfold urljoin.
  destruct (Str.is_empty base); [by intros [= <-]|]. cbn [Str.is_empty].
  rewrite Hb. cbn [bind]. rewrite urlparse_slash_a.
  cbn [bind scheme netloc path params query fragment].
  set (s := remove_unsafe_bytes _).
  destruct (negb (String.eqb s (scheme b)) || negb (str_in s uses_relative))
    eqn:E; [by intros [= <-]|].
  apply orb_false_elim in E as [_ Hrel].
  apply negb_false_iff, uses_relative_no_hash in Hrel.
  pose proof (urlparse_no_hash _ _ Hb) as Hn.
  change (Str.is_empty "") with true. rewrite andb_false_r.
  change (Str.is_empty "/a") with false. cbn [andb].
  match goal with
  | |- Ok (urlunparse s ?n ?p "" "" "") = _ -> _ =>
      assert (Str.contains "#" n = false) as Hn'
        by (by destruct (str_in s uses_netloc));
      assert (p = "/a") as -> by (vm_compute; reflexivity)
  end.
  intros [= <-]. by apply urlunparse_no_hash.
Qed.

End ScenarioA.

Section ScenarioATheorem.
Context {W : World}.

#[local] Abbreviation other_b := "http://other.example/b".

(** C5, with what it leaves unsaid. Default settings, [depth_limit] at
    least 1, a root page with exactly the anchors [/a] and
    [http://other.example/b], where [/a] resolves to a URL [a] other than
    the root and on the host of the root, the root is not on
    [other.example], and the page at [a] contributes no link (it has no
    anchor, or its fetch fails): the crawl requests the root and then
    [a], so [num_followed] is 2, [num_links] is 1, and the one remembered
    Link leads from the root to [a]. *)
Theorem scenario_a_follows_two_and_remembers_one root_url dl c a :
  Crawler_init root_url dl None [] true true = Ok c ->
  1 <= dl ->
  urlopen root_url
    = Response "text/html" [Some "/a"; Some "http://other.example/b"] ->
  urljoin root_url "/a" = Ok a ->
  a <> root_url ->
  _same_host c a = true ->
  host c <> Some "other.example" ->
  links_or_nil c a = [] ->
  q (crawl c) = [] /\
  num_followed (self (crawl c)) = 2%nat /\
  num_links (self (crawl c)) = 1%nat /\
  links_remembered (self (crawl c)) = {[ href_link root_url a ]} /\
  rev (fetched (trace (crawl c))) = [root_url; a].
Proof.
  intros Hc Hdl Hopen Hjoin Hne Hsame Hother Hleaf.
  split; [apply crawl_terminates|].
  pose proof (Crawler_init_ok _ _ _ _ _ _ _ Hc) as (h & Hh & Hceq).
  assert (exists pb, urlparse root_url "" = Ok pb) as Hparse.
  { unfold urlparse_hostname in Hh.
    destruct (urlparse root_url "") as [pb|e]; [by exists pb | done]. }
  assert (_same_host c other_b = false) as Hoff.
  { unfold _same_host.
    replace (urlparse_hostname other_b)
      with (@Ok (option string) (Some "other.example"))
      by (vm_compute; reflexivity).
    apply bool_decide_eq_false. congruence. }
  assert (a <> other_b) as Hab by (intros ->; congruence).
  pose proof (urljoin_slash_a_no_hash _ _ Hparse Hjoin) as Hfree.
  assert (links_or_nil c root_url = [a; other_b]) as Hlinks.
  { unfold links_or_nil, page_links, fetch. cbn [url Fetcher_init].
    rewrite Hopen.
    change (negb (String.eqb "text/html" "text/html")) with false.
    cbv iota. cbn [fetch_tags out_urls].
    change (escape "/a") with "/a". rewrite Hjoin. cbn [bind].
    rewrite bool_decide_false by apply not_elem_of_nil.
    change (escape other_b) with other_b.
    rewrite (urljoin_other_b _ Hparse). cbn [bind].
    rewrite bool_decide_false
      by (cbn [app out_urls Fetcher_init];
          rewrite list_elem_of_singleton; congruence).
    cbn [app out_links out_urls Fetcher_init mapM bind].
    unfold _pre_visit_url_condense. rewrite !urldefrag_unfold, Hfree.
    reflexivity. }
  assert (urls_seen c = ∅ /\ visited_links c = ∅ /\ links_remembered c = ∅)
    as (Hseen & Hvis & Hrem) by (by rewrite Hceq).
  assert (root c = root_url /\ host c = h /\ depth_limit c = dl /\
          num_followed c = 0%nat /\ num_links c = 0%nat)
    as (Hroot & Hhost & Hdepth & Hnf & Hnl) by (by rewrite Hceq).
  assert (pre_visit_filters c
            = [f_prefix_ok; f_exclude_ok; f_not_visited; f_same_host] /\
          out_url_filters c = [f_prefix_ok; f_same_host] /\
          confine_prefix c = None /\ exclude_prefixes c = [])
    as (Hpre & Hout & Hconf & Hexcl) by (by rewrite Hceq).
  clear Hceq.
  set (c1 := add_visited c root_url).
  set (c2 := add_remembered (add_seen c1 a) root_url a).
  set (c3 := add_seen c2 other_b).
  set (c4 := add_visited c3 a).
  set (t1 := [EvFetch root_url 0; EvPut root_url 0]).
  set (t3 := EvPut other_b 1 :: EvPut a 1 :: t1).
  assert (crawl_step (start c) = mkRun c3 [(a, 1); (other_b, 1)] t3) as Hs1.
  { rewrite (crawl_step_fetch (start c) root_url 0 []).
    - cbn [self start trace]. rewrite Hlinks. cbn [crawl_links]. rewrite Hroot.
      rewrite (crawl_link_put root_url 0 a)
        by (unfold c1; cbn [self urls_seen add_visited];
            rewrite Hseen; apply not_elem_of_empty).
      cbn [self q trace].
      rewrite (default_report_ok c1 a) by done.
      rewrite (same_host_settings c1 c a) by done. rewrite Hsame.
      rewrite (crawl_link_put root_url 0 other_b)
        by (unfold c2, c1;
            cbn [self urls_seen add_visited add_seen add_remembered];
            rewrite Hseen, union_empty_r_L, elem_of_singleton; congruence).
      cbn [self q trace].
      rewrite (default_report_ok c2 other_b) by done.
      rewrite (same_host_settings c2 c other_b) by done. rewrite Hoff.
      reflexivity.
    - unfold start. by rewrite Hroot.
    - cbn [self start]. lia.
    - cbn [self start].
      apply default_follow_ok; [exact Hpre | exact Hconf | exact Hexcl | |].
      + rewrite Hvis. apply not_elem_of_empty.
      + apply same_host_true. by rewrite Hhost. }
  assert (crawl_step (mkRun c3 [(a, 1); (other_b, 1)] t3)
          = mkRun c4 [(other_b, 1)] (EvFetch a 1 :: t3)) as Hs2.
  { rewrite (crawl_step_fetch _ a 1 [(other_b, 1)]).
    - cbn [self trace]. change (links_or_nil c3 a) with (links_or_nil c a).
      by rewrite Hleaf.
    - reflexivity.
    - cbn [self]. change (depth_limit c3) with (depth_limit c). lia.
    - cbn [self].
      apply default_follow_ok;
        [exact Hpre | exact Hconf | exact Hexcl | | exact Hsame].
      unfold c3, c2, c1.
      cbn [visited_links add_visited add_seen add_remembered].
      rewrite Hvis, union_empty_r_L, elem_of_singleton. exact Hne. }
  assert (crawl_step (mkRun c4 [(other_b, 1)] (EvFetch a 1 :: t3))
          = mkRun c4 [] (EvFetch a 1 :: t3)) as Hs3.
  { apply (crawl_step_drop (mkRun c4 [(other_b, 1)] (EvFetch a 1 :: t3))
             other_b 1 []); [reflexivity|]. right.
    apply default_follow_off_host.
    - cbn [self]. change (pre_visit_filters c4) with (pre_visit_filters c).
      rewrite Hpre. cbn. tauto.
    - by rewrite (same_host_settings _ c other_b). }
  assert (crawl c = mkRun c4 [] (EvFetch a 1 :: t3)) as ->.
  { rewrite (crawl_eq_loop c 3).
    - rewrite crawl_loop_unfold by done. rewrite Hs1.
      rewrite crawl_loop_unfold by done. rewrite Hs2.
      rewrite crawl_loop_unfold by done. rewrite Hs3. reflexivity.
    - rewrite crawl_loop_unfold by done. rewrite Hs1.
      rewrite crawl_loop_unfold by done. rewrite Hs2.
      rewrite crawl_loop_unfold by done. rewrite Hs3. reflexivity. }
  cbn [self trace].
  change (num_followed c4) with (S (S (num_followed c))).
  change (num_links c4) with (S (num_links c)).
  rewrite Hnf, Hnl.
  split; [done|]. split; [done|]. split; [|done].
  change (links_remembered c4)
    with (if bool_decide (href_link root_url a ∉ links_remembered c)
          then {[href_link root_url a]} ∪ links_remembered c
          else links_remembered c).
  rewrite Hrem. rewrite bool_decide_true by apply not_elem_of_empty.
  apply union_empty_r_L.
Qed.

End ScenarioATheorem.

(** C5 as stated fails: every premise of the scenario holds in this web,
    but the page reached through [/a] has an anchor of its own, so three
    pages are followed and two links are counted. *)
Lemma scenario_a_counterexample :
  @Crawler_init web_scenario_a_deeper "http://root.example" 30 None []
    true true = Ok crawler_a /\
  @urlopen web_scenario_a_deeper "http://root.example"
    = Response "text/html" [Some "/a"; Some "http://other.example/b"] /\
  @urljoin web_scenario_a_deeper "http://root.example" "/a"
    = Ok "http://root.example/a" /\
  @_same_host web_scenario_a_deeper crawler_a "http://root.example/a"
    = true /\
  @_same_host web_scenario_a_deeper crawler_a "http://other.example/b"
    = false /\
  num_followed (self (@crawl web_scenario_a_deeper crawler_a)) = 3%nat /\
  num_links (self (@crawl web_scenario_a_deeper crawler_a)) = 2%nat /\
  ~ (num_followed (self (@crawl web_scenario_a_deeper crawler_a)) = 2%nat /\
     num_links (self (@crawl web_scenario_a_deeper crawler_a)) = 1%nat).
Proof.
  assert (num_followed (self (@crawl web_scenario_a_deeper crawler_a)) = 3%nat)
    as H3 by (vm_compute; reflexivity).
  repeat split; try (vm_compute; reflexivity).
  intros [H2 _]. rewrite H3 in H2. discriminate.
Qed.

Lemma scenario_a_witness :
  q (@crawl web_scenario_a crawler_a) = [] /\
  num_followed (self (@crawl web_scenario_a crawler_a)) = 2%nat /\
  num_links (self (@crawl web_scenario_a crawler_a)) = 1%nat /\
  links_remembered (self (@crawl web_scenario_a crawler_a))
    = {[ href_link "http://root.example" "http://root.example/a" ]} /\
  rev (fetched (trace (@crawl web_scenario_a crawler_a)))
    = ["http://root.example"; "http://root.example/a"].
Proof.
  apply (@scenario_a_follows_two_and_remembers_one web_scenario_a
           "http://root.example" 30 crawler_a "http://root.example/a").
  - reflexivity.
  - lia.
  - reflexivity.
  - vm_compute. reflexivity.
  - discriminate.
  - vm_compute. reflexivity.
  - discriminate.
  - vm_compute. reflexivity.
Defined.

(** * Further properties of the code *)

(** ** [Fetcher]: what a fetch emits *)

Section FetcherFacts.
Context {W : World}.

(** The loop of [fetch] keeps its output free of repetitions, adds
    exactly the resolved hrefs, and keeps what was already emitted in
    front. *)
Lemma fetch_tags_emits self_url tags acc urls :
  NoDup acc -> fetch_tags self_url tags acc = Ok urls ->
  NoDup urls /\
  (exists added, urls = acc ++ added) /\
  (forall u, u ∈ urls <->
     u ∈ acc \/
     exists href, In (Some href) tags /\
                  urljoin self_url (escape href) = Ok u).
Proof.
  revert acc. induction tags as [|[href|] tags IH]; intros acc Hnd; simpl.
  - intros [= <-]. split; [done|]. split; [exists []; by rewrite app_nil_r|].
    intros u. split; [by left | intros [H|(h & [] & _)]; done].
  - destruct (urljoin self_url (escape href)) as [url|e] eqn:Hj; [|done].
    cbn [bind]. case_bool_decide as Hin; intros Hf.
    + destruct (IH acc Hnd Hf) as (Hn & Hpre & Hiff).
      split; [done|]. split; [done|]. intros u. rewrite Hiff. split.
      * intros [H|(h & Hh & Hu)]; [by left|]. right. exists h. auto.
      * intros [H|(h & [[= <-]|Hh] & Hu)]; [by left | | right; by exists h].
        left. congruence.
    + assert (NoDup (acc ++ [url])) as Hnd'.
      { apply NoDup_app. split; [done|]. split; [|apply NoDup_singleton].
        intros x Hx Hx'. apply list_elem_of_singleton in Hx' as ->. done. }
      destruct (IH _ Hnd' Hf) as (Hn & (added & ->) & Hiff).
      split; [done|]. split; [exists (url :: added); by rewrite <- app_assoc|].
      intros u. rewrite Hiff, elem_of_app, list_elem_of_singleton. split.
      * intros [[H| ->]|(h & Hh & Hu)]; [by left | right; exists href; auto |].
        right. exists h. auto.
      * intros [H|(h & [[= <-]|Hh] & Hu)]; [by left; left | | right; by exists h].
        left. right. congruence.
  - intros Hf. destruct (IH acc Hnd Hf) as (Hn & Hpre & Hiff).
    split; [done|]. split; [done|]. intros u. rewrite Hiff. split.
    + intros [H|(h & Hh & Hu)]; [by left|]. right. exists h. auto.
    + intros [H|(h & [Hh|Hh] & Hu)]; [by left | done | right; by exists h].
Qed.

(** One href that does not resolve makes the whole loop raise. *)
Lemma fetch_tags_raises self_url tags acc href e :
  In (Some href) tags -> urljoin self_url (escape href) = Raise e ->
  exists e', fetch_tags self_url tags acc = Raise e'.
Proof.
  intros Hin Hj. revert acc.
  induction tags as [|[h|] tags IH]; intros acc; simpl; [done| |].
  - destruct (urljoin self_url (escape h)) as [url|e0] eqn:Hh.
    + cbn [bind]. destruct Hin as [[= ->]|Hin]; [congruence|].
      case_bool_decide; by apply IH.
    + by exists e0.
  - destruct Hin as [Hin|Hin]; [done|]. by apply IH.
Qed.

(** X1. A fetch that returns never emits the same outbound URL twice;
    its outbound URLs are exactly the resolutions of the escaped hrefs
    of the page, and there are none unless the page was answered as
    [text/html]. *)
Theorem fetch_emits_each_url_once this_url page :
  fetch (Fetcher_init this_url) = Ok page ->
  url page = this_url /\
  NoDup (out_urls page) /\
  (forall hrefs, urlopen this_url = Response "text/html" hrefs ->
     forall u, u ∈ out_urls page <->
       exists href, In (Some href) hrefs /\
                    urljoin this_url (escape href) = Ok u) /\
  (out_urls page <> [] ->
     exists hrefs, urlopen this_url = Response "text/html" hrefs).
Proof.
  unfold fetch. cbn [url out_urls Fetcher_init].
  destruct (urlopen this_url) as [|e|mime hrefs] eqn:Hopen.
  - intros [= <-]. cbn. repeat split; [constructor | done..].
  - destruct e; try done; intros [= <-]; cbn;
      (repeat split; [constructor | done..]).
  - destruct (String.eqb mime "text/html") eqn:Hm; cbn [negb]; [|done].
    apply String.eqb_eq in Hm as ->.
    destruct (fetch_tags this_url hrefs []) as [urls|e] eqn:Hf; [|done].
    cbn [bind]. intros [= <-]. cbn [url out_urls].
    destruct (fetch_tags_emits _ _ _ _ (NoDup_nil_2) Hf) as (Hnd & _ & Hiff).
    split; [done|]. split; [done|]. split; [|by exists hrefs].
    intros hrefs' [= <-] u. rewrite Hiff. split; [|by right].
    intros [H|H]; [by apply elem_of_nil in H | done].
Qed.

(** X2. When one anchor of an HTML page has an href that [urljoin]
    rejects, [fetch] raises and the page contributes no link at all to the
    crawl, not even those of the anchors before it: the item is counted as
    followed and nothing else changes. *)
Theorem unresolvable_href_discards_the_page
    (r : run) this_url depth rest hrefs href e :
  q r = (this_url, depth) :: rest ->
  depth <= depth_limit (self r) ->
  failing (self r) (pre_visit_filters (self r)) this_url = [] ->
  urlopen this_url = Response "text/html" hrefs ->
  In (Some href) hrefs ->
  urljoin this_url (escape href) = Raise e ->
  (exists e', fetch (Fetcher_init this_url) = Raise e') /\
  crawl_step r = mkRun (add_visited (self r) this_url) rest
                       (EvFetch this_url depth :: trace r).
Proof.
  intros Hq Hd Hpass Hopen Hin Hj.
  destruct (fetch_tags_raises this_url hrefs [] href e Hin Hj) as [e' He'].
  assert (fetch (Fetcher_init this_url) = Raise e') as Hfetch.
  { unfold fetch. cbn [url out_urls Fetcher_init]. rewrite Hopen.
    change (negb (String.eqb "text/html" "text/html")) with false.
    cbv iota. by rewrite He'. }
  split; [by exists e'|].
  rewrite (crawl_step_fetch _ _ _ _ Hq Hd Hpass).
  unfold links_or_nil, page_links. by rewrite Hfetch.
Qed.

(** X3. A request that fails is never fatal to the crawl. Without a
    handle, or on [HTTPError] or [URLError], [fetch] returns with no
    outbound URL; any other exception leaves [fetch] and is caught by
    [crawl]. In every case the item is counted as followed and the
    crawler is otherwise unchanged. *)
Theorem failed_request_counts_but_adds_nothing
    (r : run) this_url depth rest :
  q r = (this_url, depth) :: rest ->
  depth <= depth_limit (self r) ->
  failing (self r) (pre_visit_filters (self r)) this_url = [] ->
  (urlopen this_url = NoHandle \/ exists e, urlopen this_url = OpenRaises e) ->
  (fetch (Fetcher_init this_url) = Ok (Fetcher_init this_url) <->
   urlopen this_url = NoHandle \/ urlopen this_url = OpenRaises HTTPError \/
   urlopen this_url = OpenRaises URLError) /\
  (forall e, urlopen this_url = OpenRaises e -> e <> HTTPError ->
     e <> URLError -> fetch (Fetcher_init this_url) = Raise e) /\
  crawl_step r = mkRun (add_visited (self r) this_url) rest
                       (EvFetch this_url depth :: trace r).
Proof.
  intros Hq Hd Hpass Hopen.
  rewrite (crawl_step_fetch _ _ _ _ Hq Hd Hpass).
  unfold links_or_nil, page_links, fetch. cbn [url Fetcher_init].
  destruct Hopen as [Hopen|[e Hopen]]; rewrite Hopen.
  - split; [split; auto|]. split; [intros e [=]|]. reflexivity.
  - destruct e;
      (split;
       [split;
        [intros H; try discriminate H; auto
        |intros [H|[H|H]]; try discriminate H; reflexivity]
       |split;
        [intros e0 [= <-] H1 H2; try reflexivity; congruence
        |reflexivity]]).
Qed.

End FetcherFacts.

Lemma fetch_emits_witness :
  NoDup ["http://root.example/x"; "http://root.example/y#top";
         "http://root.example/y#end"; "http://other.example/z"].
Proof.
  refine (proj1 (proj2
    (@fetch_emits_each_url_once web_scenario_c "http://root.example/"
       (mkFetcher "http://root.example/"
          ["http://root.example/x"; "http://root.example/y#top";
           "http://root.example/y#end"; "http://other.example/z"]) _))).
  vm_compute. reflexivity.
Defined.

Lemma unresolvable_href_witness :
  @crawl_step web_bad_href (start crawler_self_link)
  = mkRun (add_visited crawler_self_link "http://root.example/") []
          [EvFetch "http://root.example/" 0; EvPut "http://root.example/" 0].
Proof.
  apply (@unresolvable_href_discards_the_page web_bad_href
           (start crawler_self_link) "http://root.example/" 0 []
           [Some "/ok"; Some "http://[::1/x"] "http://[::1/x" ValueError).
  - reflexivity.
  - vm_compute. discriminate.
  - vm_compute. reflexivity.
  - reflexivity.
  - right. left. reflexivity.
  - vm_compute. reflexivity.
Defined.

Lemma failed_request_witness :
  @crawl_step web_http_error (start crawler_self_link)
  = mkRun (add_visited crawler_self_link "http://root.example/") []
          [EvFetch "http://root.example/" 0; EvPut "http://root.example/" 0].
Proof.
  apply (@failed_request_counts_but_adds_nothing web_http_error
           (start crawler_self_link) "http://root.example/" 0 []).
  - reflexivity.
  - vm_compute. discriminate.
  - vm_compute. reflexivity.
  - right. exists HTTPError. reflexivity.
Defined.

(** ** [Fetcher]: the sequence protocol *)

Section FetcherSequence.

Lemma Fetcher_getitem_nat self (i : nat) :
  Fetcher_getitem self (Z.of_nat i) = out_urls self !! i.
Proof.
  unfold Fetcher_getitem.
  destruct (decide (i < length (out_urls self))%nat) as [Hlt|Hge].
  - rewrite (proj2 (andb_true_iff _ _)) by (split; lia).
    by rewrite Nat2Z.id.
  - rewrite (proj2 (andb_false_iff _ _)) by (right; lia).
    rewrite (proj2 (andb_false_iff _ _)) by (right; lia).
    symmetry. apply lookup_ge_None. lia.
Qed.

Lemma Fetcher_iter_from_drop self fuel (i : nat) :
  (length (out_urls self) - i < fuel)%nat ->
  Fetcher_iter_from self fuel (Z.of_nat i) = drop i (out_urls self).
Proof.
  revert i. induction fuel as [|fuel IH]; intros i Hlt; [lia|].
  cbn [Fetcher_iter_from]. rewrite Fetcher_getitem_nat.
  destruct (out_urls self !! i) as [x|] eqn:Hx.
  - rewrite (drop_S _ _ _ Hx). f_equal.
    replace (Z.of_nat i + 1) with (Z.of_nat (S i)) by lia.
    apply IH. apply lookup_lt_Some in Hx. lia.
  - apply lookup_ge_None in Hx. by rewrite drop_ge.
Qed.

Lemma existsb_eqb_elem_of (x : string) (l : list string) :
  existsb (String.eqb x) l = bool_decide (x ∈ l).
Proof.
  induction l as [|y l IH]; cbn [existsb].
  - symmetry. apply bool_decide_eq_false, not_elem_of_nil.
  - rewrite IH. destruct (String.eqb x y) eqn:E; cbn [orb].
    + apply String.eqb_eq in E as ->. symmetry.
      apply bool_decide_eq_true. left.
    + apply String.eqb_neq in E. apply bool_decide_ext.
      rewrite elem_of_cons. naive_solver.
Qed.

(** X4. A [Fetcher] is a sequence through [__getitem__] alone: iterating
    it from index 0 until [IndexError] yields its outbound URLs in order,
    so [url in fetcher] is membership in [out_urls]; an index from [-len]
    to [len - 1] gives an item, a negative one counting from the end, and
    any other index raises. *)
Theorem fetcher_iterates_over_out_urls (self : Fetcher) (fuel : nat) :
  (length (out_urls self) < fuel)%nat ->
  Fetcher_iter_from self fuel 0 = out_urls self /\
  (forall url, Fetcher_contains self fuel url
               = bool_decide (url ∈ out_urls self)) /\
  (forall i x, out_urls self !! i = Some x ->
     Fetcher_getitem self (Z.of_nat i) = Some x /\
     Fetcher_getitem self (Z.of_nat i - Z.of_nat (length (out_urls self)))
       = Some x) /\
  (forall x, Fetcher_getitem self x = None <->
     x < - Z.of_nat (length (out_urls self)) \/
     Z.of_nat (length (out_urls self)) <= x).
Proof.
  intros Hfuel.
  assert (Fetcher_iter_from self fuel 0 = out_urls self) as Hiter.
  { apply (Fetcher_iter_from_drop self fuel 0). lia. }
  split; [done|]. split; [|split].
  - intros url. unfold Fetcher_contains. rewrite Hiter.
    apply existsb_eqb_elem_of.
  - intros i x Hx. split; [by rewrite Fetcher_getitem_nat|].
    pose proof (lookup_lt_Some _ _ _ Hx) as Hlt.
    unfold Fetcher_getitem.
    rewrite (proj2 (andb_false_iff _ _)) by (left; lia).
    rewrite (proj2 (andb_true_iff _ _)) by (split; lia).
    rewrite <- Hx. f_equal. lia.
  - intros x. unfold Fetcher_getitem.
    set (n := Z.of_nat (length (out_urls self))).
    destruct ((0 <=? x) && (x <? n)) eqn:E1.
    + apply andb_true_iff in E1 as [H0 Hn].
      split; [|lia]. intros Hnone. apply lookup_ge_None in Hnone. lia.
    + destruct ((- n <=? x) && (x <? 0)) eqn:E2.
      * apply andb_true_iff in E2 as [H0 Hn].
        split; [|lia]. intros Hnone. apply lookup_ge_None in Hnone. lia.
      * split; [intros _|done].
        apply andb_false_iff in E1, E2. lia.
Qed.

End FetcherSequence.

Lemma fetcher_iterates_witness :
  Fetcher_iter_from (mkFetcher "http://root.example/" ["a"; "b"; "c"]) 4 0
  = ["a"; "b"; "c"].
Proof.
  refine (proj1 (fetcher_iterates_over_out_urls
                   (mkFetcher "http://root.example/" ["a"; "b"; "c"]) 4 _)).
  simpl. lia.
Defined.

(** ** [getLinks] and [main]: failures and the substring test *)

Section LinksModeFailures.
Context {W : World}.

Lemma startswith_spec p s :
  Str.startswith p s = true <-> exists r, s = p +:+ r.
Proof.
  unfold Str.startswith. revert s.
  induction p as [|a p IH]; intros s.
  - split; [intros _; by exists s | intros _; by destruct s].
  - destruct s as [|b s].
    + split; [done | intros [r Hr]; done].
    + change (String.prefix (String a p) (String b s))
        with (if ascii_dec a b then String.prefix p s else false).
      destruct (ascii_dec a b) as [->|Hne].
      * rewrite IH. split; intros [r Hr]; exists r.
        -- by rewrite Hr.
        -- by injection Hr.
      * split; [done|]. intros [r Hr]. by injection Hr.
Qed.

Lemma has_substring_spec sub s :
  Str.has_substring sub s = true <-> exists a b, s = a +:+ sub +:+ b.
Proof.
  induction s as [|c s IH].
  - cbn [Str.has_substring]. rewrite orb_false_r.
    change (String.prefix sub "") with (Str.startswith sub "").
    rewrite startswith_spec. split.
    + intros [r Hr]. by exists "", r.
    + intros (a & b & Hab). destruct a; [by exists b | done].
  - cbn [Str.has_substring]. rewrite orb_true_iff, IH.
    change (String.prefix sub (String c s))
      with (Str.startswith sub (String c s)).
    rewrite startswith_spec. split.
    + intros [[r Hr]|(a & b & ->)]; [by exists "", r|].
      by exists (String c a), b.
    + intros (a & b & Hab). destruct a as [|x a].
      * left. by exists b.
      * right. injection Hab as _ ->. by exists a, b.
Qed.

(** X5. [getLinks] tests for the substring, not for the scheme: the
    printed lines number, from 1 and in their order, the outbound URLs
    that can be written [a + "http" + b], so [https] URLs and URLs that
    hold [http] anywhere else are printed too. *)
Theorem getLinks_prints_urls_containing_http (urls : list string) :
  exists kept,
    getLinks_lines urls 1 = numbered_from 1 kept /\
    sublist kept urls /\
    (forall url, url ∈ kept <->
       url ∈ urls /\ exists a b, url = a +:+ "http" +:+ b) /\
    (forall i url, kept !! i = Some url ->
       getLinks_lines urls 1 !! i = Some (Str.of_nat (1 + i) +:+ ". " +:+ url)).
Proof.
  exists (List.filter (Str.has_substring "http") urls).
  rewrite getLinks_lines_numbered. split; [done|]. split; [|split].
  - induction urls as [|u urls IH]; simpl; [constructor|].
    destruct (Str.has_substring "http" u); by constructor.
  - intros url. rewrite !list_elem_of_In, filter_In, has_substring_spec.
    done.
  - intros i url Hi. by apply numbered_from_lookup.
Qed.

(** X6. In a run with [-l] only [HTTPError], [URLError] and a missing
    handle are survived: the process then prints nothing and exits with
    status 0. A page that is not [text/html], any other exception of the
    request, and an href that [urljoin] rejects all end the process with
    an uncaught exception and nothing printed. *)
Theorem links_mode_failures root_url dl rest :
  (urlopen root_url = NoHandle \/ urlopen root_url = OpenRaises HTTPError \/
   urlopen root_url = OpenRaises URLError ->
   main true dl (root_url :: rest) = mkProcess [] None (Exit 0)) /\
  (forall mime hrefs, urlopen root_url = Response mime hrefs ->
     mime <> "text/html" ->
     main true dl (root_url :: rest) = mkProcess [] None (Uncaught NameError)) /\
  (forall e, urlopen root_url = OpenRaises e -> e <> HTTPError -> e <> URLError ->
     main true dl (root_url :: rest) = mkProcess [] None (Uncaught e)) /\
  (forall hrefs href e, urlopen root_url = Response "text/html" hrefs ->
     In (Some href) hrefs -> urljoin root_url (escape href) = Raise e ->
     exists e', main true dl (root_url :: rest) = mkProcess [] None (Uncaught e')).
Proof.
  unfold main, getLinks, fetch. cbn [url out_urls Fetcher_init].
  split; [|split; [|split]].
  - intros [H|[H|H]]; by rewrite H.
  - intros mime hrefs H Hm. rewrite H.
    destruct (String.eqb mime "text/html") eqn:E; [|done].
    by apply String.eqb_eq in E.
  - intros e H H1 H2. rewrite H. by destruct e.
  - intros hrefs href e H Hin Hj. rewrite H.
    change (negb (String.eqb "text/html" "text/html")) with false. cbv iota.
    destruct (fetch_tags_raises root_url hrefs [] href e Hin Hj) as [e' ->].
    by exists e'.
Qed.

End LinksModeFailures.

Lemma links_mode_failures_witness :
  @main web_scenario_d true 30 ["http://root.example/doc.pdf"]
  = mkProcess [] None (Uncaught NameError).
Proof.
  refine (proj1 (proj2 (@links_mode_failures web_scenario_d
                          "http://root.example/doc.pdf" 30 []))
            "application/pdf" [] _ _).
  - reflexivity.
  - discriminate.
Defined.

(** ** The crawl in terms of the pages it requested *)

Section Graph.
Context {W : World}.

Lemma crawl_links_seen u d ls r :
  urls_seen (self (crawl_links u d ls r))
  = list_to_set ls ∪ urls_seen (self r).
Proof.
  revert r. induction ls as [|l ls IH]; intros r; simpl; [set_solver|].
  rewrite IH.
  destruct (crawl_link_puts u d l r) as [(_ & _ & ->)|(Hl & _ & ->)];
    set_solver.
Qed.

Lemma crawl_links_queue_urls u d ls r v k :
  (v, k) ∈ q (crawl_links u d ls r) -> (v, k) ∈ q r \/ In v ls.
Proof.
  revert r. induction ls as [|l ls IH]; intros r; simpl; [by left|].
  intros H. apply IH in H as [H|H]; [|by right; right].
  apply crawl_link_queue in H as [H|[-> _]]; [by left | right; by left].
Qed.

Lemma report_ok_add_visited c u x :
  ~ In f_not_visited (out_url_filters c) ->
  report_ok (add_visited c u) x = report_ok c x.
Proof.
  intros Hnv. apply report_ok_settings; [by repeat split | done].
Qed.

Lemma graph_inv_step c r :
  ~ In f_not_visited (out_url_filters c) ->
  graph_inv c r -> graph_inv c (crawl_step r).
Proof.
  intros Hnv (Hs & Hv & Hseen & Hur & Hlr & Hnl & Hq & Hvs).
  destruct (q r) as [|[u d] rest] eqn:Eq.
  { rewrite crawl_step_nil by done. unfold graph_inv. by rewrite Eq. }
  assert (forall v k, (v, k) ∈ rest -> v = root c \/ v ∈ urls_seen (self r))
    as Hrest by (intros v k H; apply (Hq v k); by right).
  assert (u = root c \/ u ∈ urls_seen (self r)) as Hu
    by (apply (Hq u d); left).
  destruct (crawl_step_cases _ _ _ _ Eq) as [->|(_ & _ & ->)].
  { unfold graph_inv. cbn [self q trace]. done. }
  set (r1 := mkRun (add_visited (self r) u) rest (EvFetch u d :: trace r)).
  change (links_or_nil (self r) u) with (links_or_nil c u).
  destruct (crawl_links_report u d (links_or_nil c u) r1) as (Hn' & Hl' & Hu').
  destruct (crawl_links_visited u d (links_or_nil c u) r1) as (Hv' & _ & Hf').
  pose proof (crawl_links_seen u d (links_or_nil c u) r1) as Hs'.
  assert (forall x, report_ok (self r1) x = report_ok c x) as Hrep.
  { intros x. cbn [self r1]. rewrite report_ok_add_visited.
    - apply report_ok_settings; [done|].
      intros Hin. by destruct (Hnv Hin).
    - destruct Hs as (_&_&_&_&_&_&_&->). done. }
  rewrite (filter_ext _ _ Hrep) in Hn', Hl', Hu'.
  fold (reported c u) in Hn', Hl', Hu'.
  unfold graph_inv. rewrite Hn', Hl', Hu', Hv', Hf', Hs'.
  change (fetched (trace r1)) with (u :: fetched (trace r)).
  cbn [self r1 add_visited urls_seen urls_remembered
       links_remembered num_links visited_links flat_map].
  rewrite Hv, Hseen, Hur, Hlr, Hnl.
  split.
  { eapply same_settings_trans; [apply crawl_links_settings|].
    cbn [self r1]. eapply same_settings_trans; [|exact Hs]. by repeat split. }
  split; [done|].
  split; [by rewrite list_to_set_app_L|].
  split; [by rewrite list_to_set_app_L|].
  split; [by rewrite list_to_set_app_L|].
  split; [rewrite length_app; lia|].
  split.
  - intros v k H. apply crawl_links_queue_urls in H as [H|H].
    + destruct (Hrest v k H) as [->|Hin]; [by left|]. right.
      rewrite Hseen in Hin. set_solver.
    + right. apply list_elem_of_In in H. set_solver.
  - intros v H. apply elem_of_union in H as [H|H].
    + apply elem_of_singleton in H as ->.
      destruct Hu as [->|Hin]; [by left|]. right.
      rewrite Hseen in Hin. set_solver.
    + rewrite <- Hv in H. destruct (Hvs v H) as [->|Hin]; [by left|]. right.
      rewrite Hseen in Hin. set_solver.
Qed.

Lemma graph_inv_crawl root_url dl confine exclude lk fs c :
  Crawler_init root_url dl confine exclude lk fs = Ok c ->
  graph_inv c (crawl c).
Proof.
  intros Hc. pose proof (Crawler_init_ok _ _ _ _ _ _ _ Hc) as (h & _ & Hceq).
  assert (~ In f_not_visited (out_url_filters c)) as Hnv.
  { rewrite Hceq. destruct fs; simpl; intuition congruence. }
  apply (crawl_invariant (graph_inv c));
    [|intros r Hr; by apply graph_inv_step].
  unfold graph_inv. rewrite Hceq. cbn.
  split; [by repeat split|]. do 5 (split; [done|]). split.
  - intros u d Hin. apply list_elem_of_singleton in Hin. left. congruence.
  - intros u Hu. by apply not_elem_of_empty in Hu.
Qed.

End Graph.

Section GraphTheorems.
Context {W : World}.

Lemma size_list_to_set_le `{Countable A} (l : list A) :
  (size (list_to_set l : gset A) <= length l)%nat.
Proof.
  induction l as [|x l IH].
  - rewrite list_to_set_nil, size_empty. done.
  - rewrite list_to_set_cons, size_union_alt, size_singleton. simpl.
    assert (size (list_to_set l ∖ {[x]} : gset A)
            <= size (list_to_set l : gset A))%nat
      by (apply subseteq_size; set_solver).
    lia.
Qed.

Lemma elem_of_flat_map_set `{Countable B} {A} (f : A -> list B) l (y : B) :
  y ∈ (list_to_set (flat_map f l) : gset B) <->
  exists x, x ∈ l /\ In y (f x).
Proof.
  rewrite elem_of_list_to_set, list_elem_of_In, in_flat_map.
  split; intros (x & Hx & Hy); exists x; split; try done;
    by apply list_elem_of_In.
Qed.

(** X7. The link graph is exact. When [crawl] has returned, a Link is
    remembered exactly when it leads from a visited page to one of the
    condensed links of that page that passes every report filter, and
    a URL is remembered exactly when it is the destination of such a
    Link. *)
Theorem link_graph_is_exact root_url dl confine exclude lk fs c :
  Crawler_init root_url dl confine exclude lk fs = Ok c ->
  (forall l, l ∈ links_remembered (self (crawl c)) <->
     exists src_url dst_url,
       l = mkLink src_url dst_url "href" /\
       src_url ∈ visited_links (self (crawl c)) /\
       In dst_url (links_or_nil c src_url) /\
       report_ok c dst_url = true) /\
  (forall u, u ∈ urls_remembered (self (crawl c)) <->
     exists l, l ∈ links_remembered (self (crawl c)) /\ dst l = u).
Proof.
  intros Hc.
  destruct (graph_inv_crawl _ _ _ _ _ _ _ Hc)
    as (_ & Hv & _ & Hur & Hlr & _).
  assert (forall l, l ∈ links_remembered (self (crawl c)) <->
     exists src_url dst_url,
       l = mkLink src_url dst_url "href" /\
       src_url ∈ visited_links (self (crawl c)) /\
       In dst_url (links_or_nil c src_url) /\
       report_ok c dst_url = true) as Hlinks.
  { intros l. rewrite Hlr, Hv, elem_of_flat_map_set. split.
    - intros (s & Hs & Hin). apply in_map_iff in Hin as (d & <- & Hd).
      unfold reported in Hd. apply filter_In in Hd as [Hd Hok].
      exists s, d. rewrite elem_of_list_to_set. done.
    - intros (s & d & -> & Hs & Hd & Hok).
      apply elem_of_list_to_set in Hs. exists s. split; [done|].
      apply (in_map (href_link s)). unfold reported. apply filter_In. done. }
  split; [exact Hlinks|].
  intros u. rewrite Hur, elem_of_flat_map_set. split.
  - intros (s & Hs & Hin). exists (mkLink s u "href"). split; [|done].
    apply Hlinks. exists s, u. unfold reported in Hin.
    apply filter_In in Hin as [Hd Hok].
    rewrite Hv, elem_of_list_to_set. done.
  - intros (l & Hl & <-). apply Hlinks in Hl as (s & d & -> & Hs & Hd & Hok).
    exists s. rewrite Hv, elem_of_list_to_set in Hs. split; [done|].
    unfold reported. apply filter_In. done.
Qed.

(** X8. [num_links] counts occurrences, not Links: when [crawl] has
    returned it is the sum, over the requested pages, of the number of
    condensed links of the page that pass the report filters, so it is at
    least the number of remembered Links, which is at least the number of
    remembered URLs. *)
Theorem num_links_counts_link_occurrences
    root_url dl confine exclude lk fs c :
  Crawler_init root_url dl confine exclude lk fs = Ok c ->
  num_links (self (crawl c))
    = list_sum (map (fun src_url => length (reported c src_url))
                    (fetched (trace (crawl c)))) /\
  (size (links_remembered (self (crawl c))) <= num_links (self (crawl c)))%nat /\
  (size (urls_remembered (self (crawl c)))
   <= size (links_remembered (self (crawl c))))%nat.
Proof.
  intros Hc.
  destruct (graph_inv_crawl _ _ _ _ _ _ _ Hc)
    as (_ & _ & _ & Hur & Hlr & Hnl & _).
  split; [by rewrite Hnl, length_flat_map|]. split.
  - rewrite Hnl, Hlr. etrans; [apply size_list_to_set_le|].
    rewrite !length_flat_map. apply Nat.eq_le_incl. f_equal.
    apply map_ext. intros a. apply length_map.
  - assert (urls_remembered (self (crawl c))
            = list_to_set (map dst (elements (links_remembered (self (crawl c))))))
      as ->.
    { apply set_eq. intros u.
      rewrite elem_of_list_to_set, list_elem_of_In, in_map_iff.
      rewrite Hur, Hlr, elem_of_flat_map_set. split.
      - intros (s & Hs & Hin). exists (href_link s u). split; [done|].
        apply list_elem_of_In, elem_of_elements, elem_of_flat_map_set.
        exists s. split; [done|]. by apply (in_map (href_link s)).
      - intros (l & <- & Hl).
        apply list_elem_of_In, elem_of_elements, elem_of_flat_map_set in Hl
          as (s & Hs & Hin).
        apply in_map_iff in Hin as (d & <- & Hd). by exists s. }
    etrans; [apply size_list_to_set_le|]. by rewrite length_map.
Qed.

(** X9. The crawler requests only what it discovered. When [crawl] has
    returned, [urls_seen] holds exactly the condensed links of the
    visited pages; every visited URL is the root or one of them; so
    [num_followed] is at most one more than the number of seen URLs. *)
Theorem visited_urls_were_discovered root_url dl confine exclude lk fs c :
  Crawler_init root_url dl confine exclude lk fs = Ok c ->
  (forall u, u ∈ urls_seen (self (crawl c)) <->
     exists src_url, src_url ∈ visited_links (self (crawl c)) /\
                     In u (links_or_nil c src_url)) /\
  (forall u, u ∈ visited_links (self (crawl c)) ->
     u = root_url \/ u ∈ urls_seen (self (crawl c))) /\
  (num_followed (self (crawl c)) <= S (size (urls_seen (self (crawl c)))))%nat.
Proof.
  intros Hc.
  destruct (graph_inv_crawl _ _ _ _ _ _ _ Hc)
    as (_ & Hv & Hseen & _ & _ & _ & _ & Hvs).
  assert (root c = root_url) as Hroot.
  { apply Crawler_init_ok in Hc as (h & _ & ->). done. }
  rewrite Hroot in Hvs.
  split; [|split; [exact Hvs|]].
  - intros u. rewrite Hseen, Hv, elem_of_flat_map_set.
    by setoid_rewrite elem_of_list_to_set.
  - assert (followed_inv (crawl c)) as (_ & _ & Hnd & Hn).
    { apply crawl_invariant; [by eapply followed_inv_start|].
      apply followed_inv_step. }
    rewrite Hn, <- (size_list_to_set (C := gset string)) by done.
    rewrite <- Hv.
    etrans; [apply (subseteq_size _ ({[root_url]} ∪ urls_seen (self (crawl c))))|].
    + intros u Hu. destruct (Hvs u Hu) as [->|Hin]; set_solver.
    + rewrite size_union_alt, size_singleton.
      assert (size (urls_seen (self (crawl c)) ∖ {[root_url]})
              <= size (urls_seen (self (crawl c))))%nat
        by (apply subseteq_size; set_solver).
      lia.
Qed.

(** X10. Without report filters ([filter_seen] false) everything that is
    discovered is remembered: when [crawl] has returned, [urls_remembered]
    equals [urls_seen], every condensed link of every visited page has
    its Link, and [num_links] is the total number of these links. *)
Theorem without_report_filters_all_links_are_remembered
    root_url dl confine exclude lk c :
  Crawler_init root_url dl confine exclude lk false = Ok c ->
  urls_remembered (self (crawl c)) = urls_seen (self (crawl c)) /\
  (forall src_url dst_url,
     src_url ∈ visited_links (self (crawl c)) ->
     In dst_url (links_or_nil c src_url) ->
     mkLink src_url dst_url "href" ∈ links_remembered (self (crawl c))) /\
  num_links (self (crawl c))
    = list_sum (map (fun src_url => length (links_or_nil c src_url))
                    (fetched (trace (crawl c)))).
Proof.
  intros Hc.
  destruct (graph_inv_crawl _ _ _ _ _ _ _ Hc)
    as (_ & Hv & Hseen & Hur & Hlr & Hnl & _).
  assert (forall s, reported c s = links_or_nil c s) as Hall.
  { intros s. unfold reported.
    apply Crawler_init_ok in Hc as (h & _ & ->).
    unfold report_ok, failing. cbn [out_url_filters List.filter is_nil].
    induction (links_or_nil _ s) as [|x l IH]; simpl; [done|]. by f_equal. }
  split; [|split].
  - rewrite Hur, Hseen. f_equal. by apply flat_map_ext.
  - intros s d Hs Hd. rewrite Hlr. apply elem_of_flat_map_set.
    exists s. rewrite Hv, elem_of_list_to_set in Hs. split; [done|].
    rewrite Hall. by apply (in_map (href_link s)).
  - rewrite Hnl, length_flat_map. f_equal. apply map_ext.
    intros s. by rewrite Hall.
Qed.

End GraphTheorems.

Lemma link_graph_witness :
  mkLink "http://root.example/docs/" "http://root.example/docs/a" "href"
    ∈ links_remembered (self (@crawl web_docs crawler_docs)) <->
  exists src_url dst_url,
    mkLink "http://root.example/docs/" "http://root.example/docs/a" "href"
    = mkLink src_url dst_url "href" /\
    src_url ∈ visited_links (self (@crawl web_docs crawler_docs)) /\
    In dst_url (@links_or_nil web_docs crawler_docs src_url) /\
    @report_ok web_docs crawler_docs dst_url = true.
Proof.
  refine (proj1 (@link_graph_is_exact web_docs "http://root.example/docs/" 30
                   (Some "http://root.example/docs/")
                   ["http://root.example/docs/private"] true true
                   crawler_docs _)
            (mkLink "http://root.example/docs/" "http://root.example/docs/a"
                    "href")).
  reflexivity.
Defined.

Lemma num_links_witness :
  (size (links_remembered (self (@crawl web_docs crawler_docs)))
   <= num_links (self (@crawl web_docs crawler_docs)))%nat.
Proof.
  refine (proj1 (proj2 (@num_links_counts_link_occurrences web_docs
                   "http://root.example/docs/" 30
                   (Some "http://root.example/docs/")
                   ["http://root.example/docs/private"] true true
                   crawler_docs _))).
  reflexivity.
Defined.

Lemma visited_urls_witness :
  (num_followed (self (@crawl web_docs crawler_docs))
   <= S (size (urls_seen (self (@crawl web_docs crawler_docs)))))%nat.
Proof.
  refine (proj2 (proj2 (@visited_urls_were_discovered web_docs
                   "http://root.example/docs/" 30
                   (Some "http://root.example/docs/")
                   ["http://root.example/docs/private"] true true
                   crawler_docs _))).
  reflexivity.
Defined.

Lemma without_report_filters_witness :
  urls_remembered (self (@crawl web_docs crawler_docs_all))
  = urls_seen (self (@crawl web_docs crawler_docs_all)).
Proof.
  refine (proj1 (@without_report_filters_all_links_are_remembered web_docs
                   "http://root.example/docs/" 30
                   (Some "http://root.example/docs/")
                   ["http://root.example/docs/private"] true
                   crawler_docs_all _)).
  reflexivity.
Defined.

(** ** Breadth-first order *)

Section BreadthFirst.
Context {W : World}.

Lemma crawl_link_levels u d l r :
  exists qs ps,
    q (crawl_link u d l r) = q r ++ qs /\
    Forall (fun it => it.2 = d + 1) qs /\
    put_depths (trace (crawl_link u d l r)) = ps ++ put_depths (trace r) /\
    Forall (fun p => p = d + 1) ps /\
    fetch_depths (trace (crawl_link u d l r)) = fetch_depths (trace r).
Proof.
  unfold crawl_link.
  destruct (bool_decide (l ∉ urls_seen (self r))); cbn [self q trace].
  - exists [(l, d + 1)], [d + 1].
    destruct (failing _ _ _); cbn [is_nil self q trace];
      repeat split; by repeat constructor.
  - exists [], [].
    destruct (failing _ _ _); cbn [is_nil self q trace];
      rewrite app_nil_r; repeat split; by repeat constructor.
Qed.

Lemma crawl_links_levels u d ls r :
  exists qs ps,
    q (crawl_links u d ls r) = q r ++ qs /\
    Forall (fun it => it.2 = d + 1) qs /\
    put_depths (trace (crawl_links u d ls r)) = ps ++ put_depths (trace r) /\
    Forall (fun p => p = d + 1) ps /\
    fetch_depths (trace (crawl_links u d ls r)) = fetch_depths (trace r).
Proof.
  revert r. induction ls as [|l ls IH]; intros r; cbn [crawl_links].
  - exists [], []. rewrite app_nil_r. repeat split; constructor.
  - destruct (IH (crawl_link u d l r)) as (qs & ps & -> & Hqs & -> & Hps & ->).
    destruct (crawl_link_levels u d l r)
      as (qs0 & ps0 & -> & Hqs0 & -> & Hps0 & ->).
    exists (qs0 ++ qs), (ps ++ ps0). rewrite <- !app_assoc.
    repeat split; try done; by apply Forall_app.
Qed.

Lemma StronglySorted_all_equal (R : Z -> Z -> Prop) x (l : list Z) :
  R x x -> Forall (fun p => p = x) l -> StronglySorted R l.
Proof.
  intros Hx. induction 1 as [|y l -> Hl IH]; constructor; [done|].
  eapply Forall_impl; [exact Hl|]. by intros ? ->.
Qed.

Lemma bfs_inv_step r : bfs_inv r -> bfs_inv (crawl_step r).
Proof.
  intros (lo & Hlo & Hq & Hsq & Hf & Hfl & Hp & Hpl & Hsf & Hsp).
  destruct (q r) as [|[u d] rest] eqn:Eq.
  { rewrite crawl_step_nil by done. exists lo. by rewrite Eq. }
  assert (lo <= d <= lo + 1) as Hd by (apply (Hq u); left).
  cbn [map snd] in Hsq. apply StronglySorted_cons in Hsq as [Hhd Hsr].
  assert (forall v k, (v, k) ∈ rest -> d <= k <= d + 1) as Hrest.
  { intros v k Hin. split.
    - rewrite Forall_forall in Hhd. apply Hhd.
      apply list_elem_of_fmap. by exists (v, k).
    - assert (lo <= k <= lo + 1) by (apply (Hq v); by right). lia. }
  destruct (crawl_step_cases _ _ _ _ Eq) as [->|(Hdl & _ & ->)].
  { exists d. cbn [self q trace]. repeat split; try done; try lia.
    - by apply (Hrest v).
    - by apply (Hrest v).
    - apply Hf in H. lia.
    - apply Hf in H. lia.
    - apply Hp in H. lia.
    - apply Hp in H. lia. }
  set (r1 := mkRun (add_visited (self r) u) rest (EvFetch u d :: trace r)).
  destruct (crawl_links_levels u d (links_or_nil (self r) u) r1)
    as (qs & ps & Hq' & Hqs & Hp' & Hps & Hf').
  destruct (crawl_links_settings u d (links_or_nil (self r) u) r1)
    as (_ & _ & Hdl' & _).
  exists d. rewrite Hq', Hp', Hf', Hdl'. cbn [self q trace r1 add_visited depth_limit].
  change (fetch_depths (EvFetch u d :: trace r))
    with (d :: fetch_depths (trace r)).
  change (put_depths (EvFetch u d :: trace r)) with (put_depths (trace r)).
  rewrite Forall_forall in Hqs. rewrite Forall_forall in Hps.
  split; [lia|]. split.
  { intros v k Hin. apply elem_of_app in Hin as [Hin|Hin].
    - by apply (Hrest v).
    - apply Hqs in Hin. simpl in Hin. lia. }
  split.
  { rewrite map_app. apply StronglySorted_app. split; [|split; [done|]].
    - intros x y Hx Hy.
      apply list_elem_of_fmap in Hx as ([v k] & -> & Hx).
      apply list_elem_of_fmap in Hy as (it & -> & Hy).
      apply Hrest in Hx. apply Hqs in Hy. simpl in *. lia.
    - apply (StronglySorted_all_equal _ (d + 1)); [lia|].
      apply Forall_forall. intros x Hx.
      apply list_elem_of_fmap in Hx as (it & -> & Hy). by apply Hqs. }
  split.
  { intros f Hin. apply elem_of_cons in Hin as [->|Hin]; [lia|].
    apply Hf in Hin. lia. }
  split.
  { intros f Hin. apply elem_of_cons in Hin as [->|Hin]; [lia|].
    by apply Hfl. }
  split.
  { intros p Hin. apply elem_of_app in Hin as [Hin|Hin].
    - apply Hps in Hin. lia.
    - apply Hp in Hin. lia. }
  split.
  { intros p Hin. apply elem_of_app in Hin as [Hin|Hin].
    - apply Hps in Hin. right. lia.
    - by apply Hpl. }
  split.
  { apply StronglySorted_cons. split; [|done].
    apply Forall_forall. intros f Hin. apply Hf in Hin. lia. }
  apply StronglySorted_app. split; [|split; [|done]].
  - intros x y Hx Hy. apply Hps in Hx. apply Hp in Hy. lia.
  - apply (StronglySorted_all_equal _ (d + 1)); [lia|].
    by apply Forall_forall.
Qed.

Lemma bfs_inv_start c : bfs_inv (start c).
Proof.
  exists 0. unfold start. cbn [self q trace map snd].
  change (fetch_depths [EvPut (root c) 0]) with (@nil Z).
  change (put_depths [EvPut (root c) 0]) with [0].
  split; [lia|]. split.
  { intros v k Hin. apply list_elem_of_singleton in Hin.
    injection Hin as _ ->. lia. }
  split; [by repeat constructor|]. split.
  { intros f Hin. by apply elem_of_nil in Hin. }
  split.
  { intros f Hin. by apply elem_of_nil in Hin. }
  split.
  { intros p Hin. apply list_elem_of_singleton in Hin. lia. }
  split.
  { intros p Hin. apply list_elem_of_singleton in Hin. by left. }
  split; by repeat constructor.
Qed.

(** X11. The crawl is breadth-first: requests happen in the order of
    their depths, and so do puts. When [crawl] has returned, along the
    trace (most recent first) the depths of the requests never increase,
    nor do those of the puts; every request was at a depth from 0 to
    [depth_limit], and every put at a depth from 0 to [depth_limit + 1],
    or at 0 for the root. *)
Theorem crawl_is_breadth_first (c : Crawler) :
  StronglySorted Z.ge (fetch_depths (trace (crawl c))) /\
  StronglySorted Z.ge (put_depths (trace (crawl c))) /\
  (forall u d, EvFetch u d ∈ trace (crawl c) -> 0 <= d <= depth_limit c) /\
  (forall u d, EvPut u d ∈ trace (crawl c) ->
     0 <= d /\ (d = 0 \/ d <= depth_limit c + 1)).
Proof.
  assert (bfs_inv (crawl c))
    as (lo & Hlo & _ & _ & Hf & Hfl & Hp & Hpl & Hsf & Hsp).
  { apply crawl_invariant; [apply bfs_inv_start | apply bfs_inv_step]. }
  destruct (crawl_settings c) as (_ & _ & Hdl & _). rewrite Hdl in Hfl, Hpl.
  split; [done|]. split; [done|]. split.
  - intros u d Hin.
    assert (d ∈ fetch_depths (trace (crawl c))) as Hd.
    { unfold fetch_depths. apply list_elem_of_omap. by exists (EvFetch u d). }
    split; [by apply Hf | by apply Hfl].
  - intros u d Hin.
    assert (d ∈ put_depths (trace (crawl c))) as Hd.
    { unfold put_depths. apply list_elem_of_omap. by exists (EvPut u d). }
    split; [by apply Hp | by apply Hpl].
Qed.

End BreadthFirst.

(** ** The scope of a crawl *)

Section Scope.
Context {W : World}.

Lemma scope_inv_step c r :
  In f_prefix_ok (pre_visit_filters c) ->
  In f_exclude_ok (pre_visit_filters c) ->
  In f_same_host (pre_visit_filters c) ->
  scope_inv c r -> scope_inv c (crawl_step r).
Proof.
  intros Hp He Hh (Hs & Hv).
  split; [eapply same_settings_trans; [apply crawl_step_settings | done]|].
  destruct (q r) as [|[u d] rest] eqn:Eq.
  { by rewrite crawl_step_nil. }
  destruct (crawl_step_cases _ _ _ _ Eq) as [->|(_ & Hpass & ->)]; [done|].
  destruct (crawl_links_visited u d (links_or_nil (self r) u)
              (mkRun (add_visited (self r) u) rest (EvFetch u d :: trace r)))
    as (-> & _ & _).
  cbn [self add_visited visited_links].
  intros v Hin. apply elem_of_union in Hin as [Hin|Hin]; [|by apply Hv].
  apply elem_of_singleton in Hin as ->.
  pose proof Hs as (_ & _ & _ & _ & _ & _ & Hpre & _).
  rewrite failing_nil, Hpre in Hpass.
  unfold follow_ok.
  change (_prefix_ok c u) with (call c f_prefix_ok u).
  change (_exclude_ok c u) with (call c f_exclude_ok u).
  change (_same_host c u) with (call c f_same_host u).
  rewrite <- !(call_settings (self r) c _ u Hs) by done.
  by rewrite !Hpass.
Qed.

Lemma scope_inv_crawl root_url dl confine exclude lk fs c :
  Crawler_init root_url dl confine exclude lk fs = Ok c ->
  scope_inv c (crawl c).
Proof.
  intros Hc. apply Crawler_init_ok in Hc as (h & _ & Hceq).
  apply (crawl_invariant (scope_inv c)).
  - split; [apply same_settings_refl|]. rewrite Hceq. cbn.
    intros u Hu. by apply not_elem_of_empty in Hu.
  - intros r. apply scope_inv_step; rewrite Hceq; cbn; tauto.
Qed.

Lemma exclude_ok_spec c u :
  _exclude_ok c u = true <->
  forall p, In p (exclude_prefixes c) -> ~ exists rest, u = p +:+ rest.
Proof.
  unfold _exclude_ok. rewrite forallb_forall.
  split; intros H p Hin.
  - rewrite <- startswith_spec. specialize (H p Hin).
    by destruct (Str.startswith p u).
  - specialize (H p Hin). rewrite <- startswith_spec in H.
    by destruct (Str.startswith p u).
Qed.

(** X12. The crawl stays in scope. For a crawler built by [Crawler]:
    every URL it requested starts with the confine prefix when one was
    given, starts with none of the exclude prefixes, and has the host
    name of the root. *)
Theorem visited_urls_are_in_scope root_url dl confine exclude lk fs c :
  Crawler_init root_url dl confine exclude lk fs = Ok c ->
  forall u, u ∈ visited_links (self (crawl c)) ->
    (forall p, confine = Some p -> exists rest, u = p +:+ rest) /\
    (forall p, In p exclude -> ~ exists rest, u = p +:+ rest) /\
    urlparse_hostname u = urlparse_hostname root_url.
Proof.
  intros Hc u Hu.
  destruct (scope_inv_crawl _ _ _ _ _ _ _ Hc) as (_ & Hv).
  apply Hv in Hu. unfold follow_ok in Hu.
  apply andb_true_iff in Hu as [Hu Hh]. apply andb_true_iff in Hu as [Hp He].
  apply Crawler_init_ok in Hc as (h & Hroot & ->).
  split; [|split].
  - intros p ->. unfold _prefix_ok in Hp. cbn in Hp.
    by apply startswith_spec.
  - rewrite exclude_ok_spec in He. exact He.
  - apply same_host_true in Hh. by rewrite Hh, Hroot.
Qed.

(** X13. With [filter_seen] set, what is remembered is in scope too, but
    for the exclude prefixes, which the report filters do not look at:
    every remembered URL starts with the confine prefix when one was
    given and has the host name of the root, and it is the target of a
    remembered Link whose source was requested. *)
Theorem remembered_urls_are_in_scope root_url dl confine exclude lk c :
  Crawler_init root_url dl confine exclude lk true = Ok c ->
  forall u, u ∈ urls_remembered (self (crawl c)) ->
    (forall p, confine = Some p -> exists rest, u = p +:+ rest) /\
    urlparse_hostname u = urlparse_hostname root_url /\
    exists src_url, src_url ∈ visited_links (self (crawl c)) /\
      mkLink src_url u "href" ∈ links_remembered (self (crawl c)).
Proof.
  intros Hc u Hu.
  destruct (graph_inv_crawl _ _ _ _ _ _ _ Hc)
    as (_ & Hv & _ & Hur & Hlr & _).
  rewrite Hur, elem_of_flat_map_set in Hu.
  destruct Hu as (s & Hs & Hin).
  unfold reported in Hin. apply filter_In in Hin as [Hin Hok].
  apply Crawler_init_ok in Hc as (h & Hroot & Hceq).
  assert (call c f_prefix_ok u = true /\ call c f_same_host u = true)
    as [Hp Hh].
  { unfold report_ok in Hok. destruct (failing _ _ _) eqn:Ef; [|done].
    rewrite failing_nil in Ef.
    split; apply Ef; rewrite Hceq; cbn; tauto. }
  split; [|split].
  - intros p ->. rewrite Hceq in Hp. cbn in Hp. by apply startswith_spec.
  - cbn in Hh. apply same_host_true in Hh. rewrite Hh, Hroot, Hceq. done.
  - exists s. rewrite Hv, elem_of_list_to_set. split; [done|].
    rewrite Hlr, elem_of_flat_map_set.
    exists s. split; [done|].
    apply (in_map (href_link s)). unfold reported. apply filter_In. done.
Qed.

End Scope.

Lemma docs_crawl_eq :
  @crawl web_docs crawler_docs = @crawl_loop web_docs 60 (start crawler_docs).
Proof. apply crawl_eq_loop. vm_compute. reflexivity. Qed.

Lemma visited_urls_scope_witness :
  "http://root.example/docs/a"
    ∈ visited_links (self (@crawl web_docs crawler_docs)) /\
  (forall p, Some "http://root.example/docs/" = Some p ->
     exists rest, "http://root.example/docs/a" = p +:+ rest) /\
  (forall p, In p ["http://root.example/docs/private"] ->
     ~ exists rest, "http://root.example/docs/a" = p +:+ rest) /\
  @urlparse_hostname web_docs "http://root.example/docs/a"
  = @urlparse_hostname web_docs "http://root.example/docs/".
Proof.
  assert ("http://root.example/docs/a"
            ∈ visited_links (self (@crawl web_docs crawler_docs))) as Hin.
  { rewrite docs_crawl_eq. apply (bool_decide_unpack _). vm_compute. exact I. }
  split; [exact Hin|].
  refine (@visited_urls_are_in_scope web_docs
            "http://root.example/docs/" 30
            (Some "http://root.example/docs/")
            ["http://root.example/docs/private"] true true
            crawler_docs _ "http://root.example/docs/a" Hin).
  reflexivity.
Defined.

Lemma remembered_urls_scope_witness :
  "http://root.example/docs/private/x"
    ∈ urls_remembered (self (@crawl web_docs crawler_docs)) /\
  (forall p, Some "http://root.example/docs/" = Some p ->
     exists rest, "http://root.example/docs/private/x" = p +:+ rest) /\
  @urlparse_hostname web_docs "http://root.example/docs/private/x"
  = @urlparse_hostname web_docs "http://root.example/docs/" /\
  exists src_url,
    src_url ∈ visited_links (self (@crawl web_docs crawler_docs)) /\
    mkLink src_url "http://root.example/docs/private/x" "href"
      ∈ links_remembered (self (@crawl web_docs crawler_docs)).
Proof.
  assert ("http://root.example/docs/private/x"
            ∈ urls_remembered (self (@crawl web_docs crawler_docs))) as Hin.
  { rewrite docs_crawl_eq. apply (bool_decide_unpack _). vm_compute. exact I. }
  split; [exact Hin|].
  refine (@remembered_urls_are_in_scope web_docs
            "http://root.example/docs/" 30
            (Some "http://root.example/docs/")
            ["http://root.example/docs/private"] true
            crawler_docs _ "http://root.example/docs/private/x" Hin).
  reflexivity.
Defined.

(** ** The root *)

Section Root.
Context {W : World}.

Lemma crawl_rejected c :
  depth_limit c < 0 \/ failing c (pre_visit_filters c) (root c) <> [] ->
  self (crawl c) = c /\ trace (crawl c) = [EvPut (root c) 0].
Proof.
  intros H.
  assert (crawl_step (start c) = mkRun c [] [EvPut (root c) 0]) as Hstep.
  { apply (crawl_step_drop (start c) (root c) 0 []); [done|].
    destruct H as [H|H]; [left; simpl; lia | by right]. }
  assert (crawl c = crawl_loop 1 (start c)) as ->.
  { apply crawl_eq_loop. cbn [crawl_loop start q]. by rewrite Hstep. }
  cbn [crawl_loop start q]. by rewrite Hstep.
Qed.

Lemma crawl_step_fetched r :
  (exists u, fetched (trace (crawl_step r)) = u :: fetched (trace r) /\
             visited_links (self (crawl_step r))
             = {[u]} ∪ visited_links (self r)) \/
  (fetched (trace (crawl_step r)) = fetched (trace r) /\
   visited_links (self (crawl_step r)) = visited_links (self r)).
Proof.
  destruct (q r) as [|[u d] rest] eqn:Eq.
  { right. by rewrite crawl_step_nil. }
  destruct (crawl_step_cases _ _ _ _ Eq) as [->|(_ & _ & ->)]; [by right|].
  left. exists u.
  by destruct (crawl_links_visited u d (links_or_nil (self r) u)
              (mkRun (add_visited (self r) u) rest (EvFetch u d :: trace r)))
    as (-> & _ & ->).
Qed.

Lemma crawl_root_requested c :
  0 <= depth_limit c ->
  failing c (pre_visit_filters c) (root c) = [] ->
  (exists rest, fetched (trace (crawl c)) = rest ++ [root c]) /\
  root c ∈ visited_links (self (crawl c)).
Proof.
  intros Hd Hpass.
  assert (crawl c = start c \/
          ((exists rest, fetched (trace (crawl c)) = rest ++ [root c]) /\
           root c ∈ visited_links (self (crawl c)))) as [Heq|H]; [| |done].
  - apply (crawl_invariant
             (fun r => r = start c \/
                ((exists rest, fetched (trace r) = rest ++ [root c]) /\
                 root c ∈ visited_links (self r)))); [by left|].
    intros r [->|[[rest Hrest] Hin]]; right.
    + rewrite (crawl_step_fetch (start c) (root c) 0 []) by done.
      destruct (crawl_links_visited (root c) 0 (links_or_nil c (root c))
                  (mkRun (add_visited c (root c)) []
                     (EvFetch (root c) 0 :: trace (start c))))
        as (Hv & _ & Hf).
      cbn [start self trace] in *. rewrite Hv, Hf. split.
      * by exists [].
      * cbn. set_solver.
    + destruct (crawl_step_fetched r) as [(u & -> & ->)|[-> ->]].
      * split; [|set_solver]. exists (u :: rest). by rewrite Hrest.
      * split; [by exists rest | done].
  - pose proof (crawl_terminates c) as Hq. by rewrite Heq in Hq.
Qed.

Lemma init_root_passes root_url dl confine exclude lk fs c :
  Crawler_init root_url dl confine exclude lk fs = Ok c ->
  failing c (pre_visit_filters c) (root c) = [] <->
  _prefix_ok c root_url = true /\ _exclude_ok c root_url = true.
Proof.
  intros Hc. apply Crawler_init_ok in Hc as (h & Hroot & ->).
  rewrite failing_nil. cbn [pre_visit_filters root]. split.
  - intros H. split; [apply (H f_prefix_ok) | apply (H f_exclude_ok)];
      cbn; tauto.
  - intros [Hp He] f [<-|[<-|[<-|[<-|[]]]]]; cbn [call]; try done.
    apply same_host_true. by rewrite Hroot.
Qed.

(** X14. The root is the first page requested. For a crawler built by
    [Crawler] with a depth limit that is not negative and a root that
    starts with the confine prefix and with no exclude prefix: the first
    request of [crawl] is for the root, so that [num_followed] is at
    least 1 when it returns. *)
Theorem root_is_requested_first root_url dl confine exclude lk fs c :
  Crawler_init root_url dl confine exclude lk fs = Ok c ->
  0 <= dl ->
  _prefix_ok c root_url = true ->
  _exclude_ok c root_url = true ->
  (exists rest, fetched (trace (crawl c)) = rest ++ [root_url]) /\
  root_url ∈ visited_links (self (crawl c)) /\
  (1 <= num_followed (self (crawl c)))%nat.
Proof.
  intros Hc Hd Hp He.
  assert (failing c (pre_visit_filters c) (root c) = []) as Hpass
    by (by apply (init_root_passes _ _ _ _ _ _ _ Hc)).
  assert (followed_inv (crawl c)) as (_ & _ & _ & Hn).
  { apply crawl_invariant; [by eapply followed_inv_start|].
    apply followed_inv_step. }
  apply Crawler_init_ok in Hc as (h & _ & Hceq).
  assert (root c = root_url) as Hroot by (by rewrite Hceq).
  assert (depth_limit c = dl) as Hdl by (by rewrite Hceq).
  destruct (crawl_root_requested c) as ([rest Hrest] & Hin);
    [lia | done |].
  rewrite Hroot in *. split; [by exists rest|]. split; [done|].
  rewrite Hn, Hrest, length_app. simpl. lia.
Qed.

(** X15. A root out of scope stops the crawl at once. For a crawler
    built by [Crawler] with a negative depth limit, or with a root that
    does not start with the confine prefix or starts with an exclude
    prefix: [crawl] requests nothing and leaves the crawler as it was,
    with empty sets and counters at 0. *)
Theorem rejected_root_is_not_requested root_url dl confine exclude lk fs c :
  Crawler_init root_url dl confine exclude lk fs = Ok c ->
  dl < 0 \/ _prefix_ok c root_url = false \/ _exclude_ok c root_url = false ->
  self (crawl c) = c /\
  trace (crawl c) = [EvPut root_url 0] /\
  num_followed (self (crawl c)) = 0%nat /\
  num_links (self (crawl c)) = 0%nat /\
  links_remembered (self (crawl c)) = ∅.
Proof.
  intros Hc H.
  pose proof (init_root_passes _ _ _ _ _ _ _ Hc) as Hpass.
  apply Crawler_init_ok in Hc as (h & _ & Hceq).
  assert (root c = root_url) as Hroot by (by rewrite Hceq).
  assert (depth_limit c = dl) as Hdl by (by rewrite Hceq).
  destruct (crawl_rejected c) as [Hs Ht].
  { destruct H as [H|H]; [left; lia|]. right. rewrite Hpass.
    intros [Hp He]. destruct H; congruence. }
  rewrite Hs, Ht, Hroot. split; [done|]. split; [done|].
  by rewrite Hceq.
Qed.

(** X16. A second [crawl] on the same crawler does nothing. For a
    crawler built by [Crawler], after [crawl] has returned, calling
    [crawl] again puts the root on the queue, discards it and returns:
    no page is requested and the crawler is left as it was. *)
Theorem second_crawl_does_nothing root_url dl confine exclude lk fs c :
  Crawler_init root_url dl confine exclude lk fs = Ok c ->
  self (crawl (self (crawl c))) = self (crawl c) /\
  trace (crawl (self (crawl c))) = [EvPut root_url 0].
Proof.
  intros Hc.
  pose proof (init_root_passes _ _ _ _ _ _ _ Hc) as Hpass.
  pose proof (crawl_settings c) as Hs.
  pose proof Hs as (Hroot & _ & Hdl & _ & _ & _ & Hpre & _).
  assert (root c = root_url) as Hr.
  { apply Crawler_init_ok in Hc as (h & _ & ->). done. }
  assert (In f_not_visited (pre_visit_filters c)) as Hnv.
  { apply Crawler_init_ok in Hc as (h & _ & ->). cbn. tauto. }
  set (c' := self (crawl c)) in *.
  rewrite <- Hr, <- Hroot. apply crawl_rejected.
  destruct (Z_lt_ge_dec (depth_limit c) 0) as [Hd|Hd]; [left; lia|].
  right.
  destruct (failing c (pre_visit_filters c) (root c)) eqn:Ef.
  - destruct (crawl_root_requested c) as (_ & Hin); [lia | done |].
    fold c' in Hin. intros Hnil. rewrite failing_nil in Hnil.
    specialize (Hnil f_not_visited). rewrite Hpre in Hnil.
    specialize (Hnil Hnv). cbn [call] in Hnil. unfold _not_visited in Hnil.
    apply bool_decide_eq_true in Hnil. rewrite Hroot in Hnil. done.
  - destruct (crawl_rejected c) as [Hself _]; [right; by rewrite Ef|].
    unfold c'. rewrite Hself, Ef. done.
Qed.

End Root.

Lemma root_is_requested_first_witness :
  (exists rest, fetched (trace (@crawl web_docs crawler_docs))
                = rest ++ ["http://root.example/docs/"]) /\
  "http://root.example/docs/"
    ∈ visited_links (self (@crawl web_docs crawler_docs)) /\
  (1 <= num_followed (self (@crawl web_docs crawler_docs)))%nat.
Proof.
  refine (@root_is_requested_first web_docs
            "http://root.example/docs/" 30
            (Some "http://root.example/docs/")
            ["http://root.example/docs/private"] true true
            crawler_docs _ _ _ _).
  - reflexivity.
  - lia.
  - reflexivity.
  - reflexivity.
Defined.

Lemma rejected_root_witness :
  self (@crawl web_docs crawler_outside) = crawler_outside /\
  trace (@crawl web_docs crawler_outside) = [EvPut "http://root.example/" 0] /\
  num_followed (self (@crawl web_docs crawler_outside)) = 0%nat /\
  num_links (self (@crawl web_docs crawler_outside)) = 0%nat /\
  links_remembered (self (@crawl web_docs crawler_outside)) = ∅.
Proof.
  refine (@rejected_root_is_not_requested web_docs
            "http://root.example/" 30
            (Some "http://root.example/docs/") [] true true
            crawler_outside _ _).
  - reflexivity.
  - right. left. reflexivity.
Defined.

Lemma second_crawl_witness :
  self (@crawl web_docs (self (@crawl web_docs crawler_docs)))
  = self (@crawl web_docs crawler_docs) /\
  trace (@crawl web_docs (self (@crawl web_docs crawler_docs)))
  = [EvPut "http://root.example/docs/" 0].
Proof.
  refine (@second_crawl_does_nothing web_docs
            "http://root.example/docs/" 30
            (Some "http://root.example/docs/")
            ["http://root.example/docs/private"] true true
            crawler_docs _).
  reflexivity.
Defined.

(** ** What reaches the queue *)

Section Discovered.
Context {W : World}.

Lemma mapM_Ok {A B} (f : A -> result B) l ys :
  mapM f l = Ok ys ->
  forall y, In y ys -> exists x, In x l /\ f x = Ok y.
Proof.
  revert ys. induction l as [|x l IH]; intros ys; cbn [mapM bind].
  - intros [= <-] y [].
  - destruct (f x) as [y0|e] eqn:Ef; cbn [bind]; [|done].
    destruct (mapM f l) as [ys0|e]; cbn [bind]; [|done].
    intros [= <-] y [<-|Hin].
    + exists x. split; [by left | done].
    + destruct (IH ys0 eq_refl y Hin) as (x' & Hx' & Hf).
      exists x'. split; [by right | done].
Qed.

Lemma urldefrag_no_hash u v :
  urldefrag u = Ok v -> Str.contains "#" v = false.
Proof.
  rewrite urldefrag_unfold. destruct (Str.contains "#" u) eqn:E.
  - apply reserialize_no_hash.
  - by intros [= <-].
Qed.

Lemma links_or_nil_no_hash c src_url u :
  In u (links_or_nil c src_url) -> Str.contains "#" u = false.
Proof.
  unfold links_or_nil, page_links.
  destruct (fetch (Fetcher_init src_url)) as [page|e]; cbn [bind]; [|done].
  destruct (mapM _ _) as [ls|e] eqn:E; [|done].
  intros Hin. destruct (mapM_Ok _ _ _ E u Hin) as (x & _ & Hx).
  by apply urldefrag_no_hash in Hx.
Qed.

(** X17. Every discovered URL is put on the queue exactly once. For a
    crawler built by [Crawler], when [crawl] has returned: the puts are
    the initial put of the root and, before it in the trace, one put for
    each URL of [urls_seen] and no other; so there were one more puts
    than there are seen URLs, and the queue is empty. *)
Theorem each_seen_url_is_put_once root_url dl confine exclude lk fs c :
  Crawler_init root_url dl confine exclude lk fs = Ok c ->
  exists ps,
    puts (trace (crawl c)) = ps ++ [root_url] /\
    NoDup ps /\
    urls_seen (self (crawl c)) = list_to_set ps /\
    length (puts (trace (crawl c))) = S (size (urls_seen (self (crawl c)))) /\
    q (crawl c) = [].
Proof.
  intros Hc. apply Crawler_init_ok in Hc as (h & _ & Hceq).
  assert (put_inv (crawl c)) as (ps & Hp & Hnd & Hs).
  { apply crawl_invariant; [|apply put_inv_step].
    exists []. rewrite Hceq. cbn. repeat split. constructor. }
  destruct (crawl_settings c) as (Hroot & _). rewrite Hroot in Hp.
  exists ps. rewrite Hp, Hs, length_app, size_list_to_set by done.
  rewrite Hceq. cbn [root length]. repeat split; try done; [lia|].
  rewrite <- Hceq. apply crawl_terminates.
Qed.

(** X18. No fragment reaches the queue. For a crawler built by
    [Crawler], when [crawl] has returned: no URL of [urls_seen] or
    [urls_remembered] and no target of a remembered Link contains a [#],
    and a requested URL contains one only if it is the root. *)
Theorem no_fragment_is_discovered root_url dl confine exclude lk fs c :
  Crawler_init root_url dl confine exclude lk fs = Ok c ->
  (forall u, u ∈ urls_seen (self (crawl c)) -> Str.contains "#" u = false) /\
  (forall u, u ∈ urls_remembered (self (crawl c)) ->
     Str.contains "#" u = false) /\
  (forall l, l ∈ links_remembered (self (crawl c)) ->
     Str.contains "#" (dst l) = false) /\
  (forall u, u ∈ visited_links (self (crawl c)) ->
     u = root_url \/ Str.contains "#" u = false).
Proof.
  intros Hc.
  destruct (graph_inv_crawl _ _ _ _ _ _ _ Hc)
    as (_ & Hv & Hseen & Hur & Hlr & _ & _ & Hvs).
  assert (root c = root_url) as Hroot.
  { apply Crawler_init_ok in Hc as (h & _ & ->). done. }
  assert (forall u, u ∈ urls_seen (self (crawl c)) ->
            Str.contains "#" u = false) as Hs.
  { intros u. rewrite Hseen, elem_of_flat_map_set.
    intros (s & _ & Hin). by apply links_or_nil_no_hash in Hin. }
  split; [exact Hs|]. split; [|split].
  - intros u. rewrite Hur, elem_of_flat_map_set.
    intros (s & _ & Hin). unfold reported in Hin.
    apply filter_In in Hin as [Hin _]. by apply links_or_nil_no_hash in Hin.
  - intros l. rewrite Hlr, elem_of_flat_map_set.
    intros (s & _ & Hin). apply in_map_iff in Hin as (u & <- & Hin).
    unfold reported in Hin. apply filter_In in Hin as [Hin _].
    cbn [href_link dst]. by apply links_or_nil_no_hash in Hin.
  - intros u Hu. destruct (Hvs u Hu) as [->|Hin]; [by left|].
    right. by apply Hs.
Qed.

End Discovered.

Lemma each_seen_url_witness :
  exists ps,
    puts (trace (@crawl web_docs crawler_docs))
    = ps ++ ["http://root.example/docs/"] /\
    NoDup ps /\
    urls_seen (self (@crawl web_docs crawler_docs)) = list_to_set ps /\
    length (puts (trace (@crawl web_docs crawler_docs)))
    = S (size (urls_seen (self (@crawl web_docs crawler_docs)))) /\
    q (@crawl web_docs crawler_docs) = [].
Proof.
  refine (@each_seen_url_is_put_once web_docs
            "http://root.example/docs/" 30
            (Some "http://root.example/docs/")
            ["http://root.example/docs/private"] true true
            crawler_docs _).
  reflexivity.
Defined.

Lemma no_fragment_witness :
  "http://root.example/docs/a"
    ∈ urls_seen (self (@crawl web_docs crawler_docs)) /\
  Str.contains "#" "http://root.example/docs/a" = false.
Proof.
  assert ("http://root.example/docs/a"
            ∈ urls_seen (self (@crawl web_docs crawler_docs))) as Hin.
  { rewrite docs_crawl_eq. apply (bool_decide_unpack _). vm_compute. exact I. }
  split; [exact Hin|].
  refine (proj1 (@no_fragment_is_discovered web_docs
                   "http://root.example/docs/" 30
                   (Some "http://root.example/docs/")
                   ["http://root.example/docs/private"] true true
                   crawler_docs _) "http://root.example/docs/a" Hin).
  reflexivity.
Defined.

(** ** The summary *)

Section Summary.
Context {W : World}.

Lemma visited_are_remembered root_url dl confine exclude lk c :
  Crawler_init root_url dl confine exclude lk true = Ok c ->
  visited_links (self (crawl c))
    ⊆ {[root_url]} ∪ urls_remembered (self (crawl c)).
Proof.
  intros Hc u Hu.
  destruct (graph_inv_crawl _ _ _ _ _ _ _ Hc)
    as (_ & Hv & Hseen & Hur & _ & _ & _ & Hvs).
  destruct (scope_inv_crawl _ _ _ _ _ _ _ Hc) as (_ & Hsc).
  pose proof (Hsc u Hu) as Hok.
  apply Crawler_init_ok in Hc as (h & _ & Hceq).
  assert (root c = root_url) as Hroot by (by rewrite Hceq).
  destruct (Hvs u Hu) as [->|Hin]; [rewrite Hroot; set_solver|].
  apply elem_of_union_r.
  rewrite Hseen, elem_of_flat_map_set in Hin. destruct Hin as (s & Hs & Hin).
  rewrite Hur, elem_of_flat_map_set. exists s. split; [done|].
  unfold reported. apply filter_In. split; [done|].
  unfold follow_ok in Hok.
  apply andb_true_iff in Hok as [Hok Hh]. apply andb_true_iff in Hok as [Hp _].
  unfold report_ok.
  assert (failing c (out_url_filters c) u = []) as ->; [|done].
  assert (out_url_filters c = [f_prefix_ok; f_same_host]) as Hout
    by (by rewrite Hceq).
  apply failing_nil. rewrite Hout. intros f [<-|[<-|[]]]; done.
Qed.

(** X19. With [filter_seen] set, the two counters are tied: every
    requested URL but the root was remembered first, so when [crawl] has
    returned [num_followed] is at most [num_links + 1]. *)
Theorem followed_at_most_found_plus_one root_url dl confine exclude lk c :
  Crawler_init root_url dl confine exclude lk true = Ok c ->
  (forall u, u ∈ visited_links (self (crawl c)) ->
     u = root_url \/ u ∈ urls_remembered (self (crawl c))) /\
  (num_followed (self (crawl c)) <= S (num_links (self (crawl c))))%nat.
Proof.
  intros Hc. pose proof (visited_are_remembered _ _ _ _ _ _ Hc) as Hsub.
  split.
  { intros u Hu. apply Hsub in Hu. set_solver. }
  assert (followed_inv (crawl c)) as (_ & Hv & Hnd & Hn).
  { apply crawl_invariant; [by eapply followed_inv_start|].
    apply followed_inv_step. }
  destruct (graph_inv_crawl _ _ _ _ _ _ _ Hc)
    as (_ & _ & _ & Hur & _ & Hnl & _).
  rewrite Hn, <- (size_list_to_set (C := gset string)) by done.
  rewrite <- Hv.
  etrans; [apply (subseteq_size _ _ Hsub)|].
  rewrite size_union_alt, size_singleton.
  assert (size (urls_remembered (self (crawl c)) ∖ {[root_url]})
          <= size (urls_remembered (self (crawl c))))%nat
    by (apply subseteq_size; set_solver).
  assert (size (urls_remembered (self (crawl c)))
          <= num_links (self (crawl c)))%nat.
  { rewrite Hur, Hnl. apply size_list_to_set_le. }
  lia.
Qed.

(** X20. A run of [main] without [-l] on a root whose host [urlparse] can
    extract always returns and prints its summary, whatever the pages do:
    nothing goes to standard output, and the two numbers are [Found] and
    [Followed] with [Followed <= Found + 1]; [Followed] is at least 1
    when the depth limit is not negative, and both are 0 when it is. If
    [urlparse] raises on the root, the exception ends the process before
    any summary. *)
Theorem main_crawl_mode root_url dl rest :
  (forall h, urlparse_hostname root_url = Ok h ->
     exists found followed,
       main false dl (root_url :: rest)
       = mkProcess [] (Some (found, followed)) Returned /\
       (followed <= S found)%nat /\
       (0 <= dl -> (1 <= followed)%nat) /\
       (dl < 0 -> found = 0%nat /\ followed = 0%nat)) /\
  (forall e, urlparse_hostname root_url = Raise e ->
     main false dl (root_url :: rest) = mkProcess [] None (Uncaught e)).
Proof.
  unfold main. split.
  - intros h Hh.
    destruct (Crawler_init root_url dl None [] true true) as [c|e] eqn:Hc.
    2: { unfold Crawler_init in Hc. rewrite Hh in Hc. done. }
    exists (num_links (self (crawl c))), (num_followed (self (crawl c))).
    split; [done|]. split; [|split].
    + by apply (followed_at_most_found_plus_one _ _ _ _ _ _ Hc).
    + intros Hd.
      apply (root_is_requested_first _ _ _ _ _ _ _ Hc Hd).
      * apply Crawler_init_ok in Hc as (? & _ & ->). done.
      * apply Crawler_init_ok in Hc as (? & _ & ->). done.
    + intros Hd.
      destruct (rejected_root_is_not_requested _ _ _ _ _ _ _ Hc)
        as (_ & _ & Hf & Hl & _); [by left | done].
  - intros e He. unfold Crawler_init. by rewrite He.
Qed.

End Summary.

Lemma followed_at_most_found_witness :
  (forall u, u ∈ visited_links (self (@crawl web_docs crawler_docs)) ->
     u = "http://root.example/docs/"
     \/ u ∈ urls_remembered (self (@crawl web_docs crawler_docs))) /\
  (num_followed (self (@crawl web_docs crawler_docs))
   <= S (num_links (self (@crawl web_docs crawler_docs))))%nat.
Proof.
  refine (@followed_at_most_found_plus_one web_docs
            "http://root.example/docs/" 30
            (Some "http://root.example/docs/")
            ["http://root.example/docs/private"] true
            crawler_docs _).
  reflexivity.
Defined.

Lemma main_crawl_mode_witness :
  exists found followed,
    @main web_scenario_a false 30 ["http://root.example"]
    = mkProcess [] (Some (found, followed)) Returned /\
    (followed <= S found)%nat /\
    (0 <= 30 -> (1 <= followed)%nat) /\
    (30 < 0 -> found = 0%nat /\ followed = 0%nat).
Proof.
  refine (proj1 (@main_crawl_mode web_scenario_a "http://root.example" 30 [])
            (Some "root.example") _).
  reflexivity.
Defined.

(** ** The report filters and the traversal *)

Section ReportFilters.
Context {W : World}.

Lemma same_frontier_link u d l r1 r2 :
  same_frontier r1 r2 ->
  same_frontier (crawl_link u d l r1) (crawl_link u d l r2).
Proof.
  intros (Hq & Ht & Hh & Hd & Hc & He & Hp & Hs & Hv & Hn).
  unfold crawl_link. rewrite Hs.
  destruct (bool_decide (l ∉ urls_seen (self r2))); cbn [self q trace];
    do 2 destruct (failing _ _ _); cbn [is_nil self q trace];
    unfold same_frontier; cbn; rewrite ?Hq, ?Ht, ?Hs; done.
Qed.

Lemma same_frontier_links u d ls r1 r2 :
  same_frontier r1 r2 ->
  same_frontier (crawl_links u d ls r1) (crawl_links u d ls r2).
Proof.
  revert r1 r2. induction ls as [|l ls IH]; intros r1 r2 H; [done|].
  cbn [crawl_links]. by apply IH, same_frontier_link.
Qed.

Lemma same_frontier_failing r1 r2 u :
  same_frontier r1 r2 ->
  failing (self r1) (pre_visit_filters (self r1)) u
  = failing (self r2) (pre_visit_filters (self r2)) u.
Proof.
  intros (Hq & Ht & Hh & Hd & Hc & He & Hp & Hs & Hv & Hn).
  rewrite Hp. unfold failing. apply filter_ext. intros f. f_equal.
  destruct f; unfold call, _prefix_ok, _exclude_ok, _not_visited, _same_host;
    by rewrite ?Hc, ?He, ?Hv, ?Hh.
Qed.

Lemma same_frontier_step r1 r2 :
  same_frontier r1 r2 -> same_frontier (crawl_step r1) (crawl_step r2).
Proof.
  intros H. pose proof (same_frontier_failing r1 r2) as Hf.
  pose proof H as (Hq & Ht & Hh & Hd & Hc & He & Hp & Hs & Hv & Hn).
  unfold crawl_step. rewrite Hq.
  destruct (q r2) as [|[u d] rest]; [done|]. cbv zeta. cbn [self q trace].
  rewrite Hd. destruct (d >? depth_limit (self r2)).
  { unfold same_frontier. cbn [self q trace]. by rewrite Ht. }
  rewrite (Hf u H).
  destruct (failing (self r2) (pre_visit_filters (self r2)) u);
    cbn [is_nil].
  2: { unfold same_frontier. cbn [self q trace]. by rewrite Ht. }
  change (page_links (add_visited (self r1) u) u)
    with (page_links (add_visited (self r2) u) u).
  assert (same_frontier
            (mkRun (add_visited (self r1) u) rest (EvFetch u d :: trace r1))
            (mkRun (add_visited (self r2) u) rest (EvFetch u d :: trace r2)))
    as H1.
  { unfold same_frontier. cbn. by rewrite Ht, Hv, Hn. }
  destruct (page_links _ u); [by apply same_frontier_links | done].
Qed.

Lemma same_frontier_loop fuel r1 r2 :
  same_frontier r1 r2 ->
  same_frontier (crawl_loop fuel r1) (crawl_loop fuel r2).
Proof.
  revert r1 r2. induction fuel as [|n IH]; intros r1 r2 H; [done|].
  cbn [crawl_loop]. pose proof H as (Hq & _). rewrite Hq.
  destruct (q r2); [done|]. by apply IH, same_frontier_step.
Qed.

Lemma same_frontier_crawl c1 c2 :
  same_frontier (start c1) (start c2) ->
  same_frontier (crawl c1) (crawl c2).
Proof.
  intros H. pose proof H as (_ & _ & _ & Hd & _).
  unfold crawl at 1.
  assert (crawl c2 = crawl_loop (queue_cost c1 [(root c1, 0)]) (start c2))
    as ->.
  { apply crawl_eq_loop.
    destruct (same_frontier_loop (queue_cost c1 [(root c1, 0)]) _ _ H)
      as (<- & _).
    apply (crawl_terminates c1). }
  by apply same_frontier_loop.
Qed.

Lemma list_sum_map_le {A} (f g : A -> nat) (l : list A) :
  (forall x, (f x <= g x)%nat) ->
  (list_sum (map f l) <= list_sum (map g l))%nat.
Proof.
  intros H. induction l as [|a l IH]; simpl; [lia|].
  specialize (H a). lia.
Qed.

(** X21. [filter_seen] changes what is remembered, not what is crawled.
    Two crawlers built with the same arguments, one with [filter_seen]
    and one without, make the same puts and requests in the same order
    and end with the same seen and visited URLs and the same
    [num_followed]; the one with [filter_seen] remembers a part of what
    the other remembers and counts at most as many links. *)
Theorem filter_seen_does_not_change_the_traversal
    root_url dl confine exclude lk c1 c2 :
  Crawler_init root_url dl confine exclude lk true = Ok c1 ->
  Crawler_init root_url dl confine exclude lk false = Ok c2 ->
  trace (crawl c1) = trace (crawl c2) /\
  urls_seen (self (crawl c1)) = urls_seen (self (crawl c2)) /\
  visited_links (self (crawl c1)) = visited_links (self (crawl c2)) /\
  num_followed (self (crawl c1)) = num_followed (self (crawl c2)) /\
  urls_remembered (self (crawl c1)) ⊆ urls_remembered (self (crawl c2)) /\
  links_remembered (self (crawl c1)) ⊆ links_remembered (self (crawl c2)) /\
  (num_links (self (crawl c1)) <= num_links (self (crawl c2)))%nat.
Proof.
  intros H1 H2.
  destruct (graph_inv_crawl _ _ _ _ _ _ _ H1)
    as (_ & _ & _ & Hur1 & Hlr1 & Hnl1 & _).
  destruct (graph_inv_crawl _ _ _ _ _ _ _ H2)
    as (_ & _ & _ & Hur2 & Hlr2 & Hnl2 & _).
  assert (same_frontier (crawl c1) (crawl c2))
    as (_ & Ht & _ & _ & _ & _ & _ & Hs & Hv & Hn).
  { apply same_frontier_crawl.
    apply Crawler_init_ok in H1 as (h1 & Hh1 & ->).
    apply Crawler_init_ok in H2 as (h2 & Hh2 & ->).
    assert (h2 = h1) as -> by congruence.
    unfold same_frontier. cbn. done. }
  assert (forall s, reported c2 s = links_or_nil c1 s) as Hall.
  { intros s. unfold reported.
    change (links_or_nil c2 s) with (links_or_nil c1 s).
    apply Crawler_init_ok in H2 as (h & _ & ->).
    unfold report_ok, failing. cbn [out_url_filters List.filter is_nil].
    induction (links_or_nil c1 s) as [|x l IH]; simpl; [done|]. by f_equal. }
  do 4 (split; [done|]).
  rewrite Hur1, Hur2, Hlr1, Hlr2, Hnl1, Hnl2, <- Ht.
  split; [|split].
  - intros u. rewrite !elem_of_flat_map_set.
    intros (s & Hs' & Hin). exists s. split; [done|].
    rewrite Hall. unfold reported in Hin. by apply filter_In in Hin as [? _].
  - intros l. rewrite !elem_of_flat_map_set.
    intros (s & Hs' & Hin). exists s. split; [done|].
    apply in_map_iff in Hin as (u & <- & Hin).
    apply (in_map (href_link s)).
    rewrite Hall. unfold reported in Hin. by apply filter_In in Hin as [? _].
  - rewrite !length_flat_map. apply list_sum_map_le.
    intros s. rewrite Hall. apply filter_length_le.
Qed.

End ReportFilters.

Lemma filter_seen_witness :
  trace (@crawl web_docs crawler_docs)
  = trace (@crawl web_docs crawler_docs_all) /\
  urls_seen (self (@crawl web_docs crawler_docs))
  = urls_seen (self (@crawl web_docs crawler_docs_all)) /\
  visited_links (self (@crawl web_docs crawler_docs))
  = visited_links (self (@crawl web_docs crawler_docs_all)) /\
  num_followed (self (@crawl web_docs crawler_docs))
  = num_followed (self (@crawl web_docs crawler_docs_all)) /\
  urls_remembered (self (@crawl web_docs crawler_docs))
  ⊆ urls_remembered (self (@crawl web_docs crawler_docs_all)) /\
  links_remembered (self (@crawl web_docs crawler_docs))
  ⊆ links_remembered (self (@crawl web_docs crawler_docs_all)) /\
  (num_links (self (@crawl web_docs crawler_docs))
   <= num_links (self (@crawl web_docs crawler_docs_all)))%nat.
Proof.
  refine (@filter_seen_does_not_change_the_traversal web_docs
            "http://root.example/docs/" 30
            (Some "http://root.example/docs/")
            ["http://root.example/docs/private"] true
            crawler_docs crawler_docs_all _ _).
  - reflexivity.
  - reflexivity.
Defined.
